(** * The frame-acquisition pipeline of [gui/camera_feed.py]

    A shallow embedding of [CameraGrabber] (the acquisition thread), of the
    bounded preview queue it shares with the Tk window, and of the window's
    two callbacks [update_ui] and [on_close].

    Conventions of the embedding.
    - Python exceptions are values of [outcome]; [str(e)] is the carried
      message.
    - The pylon SDK, OpenCV, the clock and the other thread are the
      environment: what each of their calls gives back in one phase of the
      thread is read from an environment record ([SetupEnv], [IterEnv],
      [TeardownEnv]).
    - Every external call the thread makes is appended to a log, so that
      statements about what was (or was not) attempted can be made.
    - [time.time()] readings are the rationals the floats denote. *)

From Stdlib Require Import List String Ascii Bool Arith NArith ZArith QArith.
From Stdlib Require Import FinFun Lia Lqa.
Import ListNotations.
Local Open Scope string_scope.
Local Open Scope list_scope.

(** ** Frames *)

(** A frame is the array returned by [Convert(grab).GetArray()] for a Mono8
    image: rows of 8-bit pixel values. *)
Definition Frame : Type := list (list N).

(** ** queue.Queue *)

Module PyQueue.

(** [queue.Queue(maxsize)]: a FIFO of pending items; [maxsize <= 0] means
    unbounded. *)
Record t : Type := Queue { maxsize : Z; items : list Frame }.

Definition new (maxsize : Z) : t := Queue maxsize [].

Definition qsize (q : t) : nat := List.length (items q).

Definition full (q : t) : bool :=
  ((0 <? maxsize q) && (maxsize q <=? Z.of_nat (qsize q)))%Z.

(** What a [put] can do: store the item, raise [queue.Full], or wait for a
    free slot. *)
Inductive put_result : Type :=
| Stored (q' : t)
| Full
| Blocked.

(** [Queue.put(item, block)] with no timeout. *)
Definition put (q : t) (item : Frame) (block : bool) : put_result :=
  if full q then (if block then Blocked else Full)
  else Stored (Queue (maxsize q) (items q ++ [item])).

(** [Queue.put_nowait(item)] is [put(item, block=False)]; [None] stands
    for [queue.Full]. With [block=False] the waiting branch of [put] is
    never taken (lemma [put_nowait_is_put] below). *)
Definition put_nowait (q : t) (item : Frame) : option t :=
  if full q then None else Some (Queue (maxsize q) (items q ++ [item])).

(** [Queue.get_nowait()]: [None] stands for [queue.Empty]. *)
Definition get_nowait (q : t) : option (Frame * t) :=
  match items q with
  | [] => None
  | x :: rest => Some (x, Queue (maxsize q) rest)
  end.

End PyQueue.

(** ** Integer formatting: [str(n)] and the format spec [06d] *)

Module PyFormat.

Definition digit_char (d : N) : ascii := ascii_of_N (48 + d).

(** Decimal digits of [n], most significant first, pushed in front of
    [acc]; [fuel] bounds the number of digits produced. *)
Fixpoint decimal_aux (fuel : nat) (n : N) (acc : string) : string :=
  match fuel with
  | O => acc
  | S fuel' =>
      let acc' := String (digit_char (n mod 10)) acc in
      if (n / 10 =? 0)%N then acc' else decimal_aux fuel' (n / 10) acc'
  end.

(** [str(n)] for a non-negative int. A number has no more decimal digits
    than binary ones, so [N.size_nat] is fuel enough. *)
Definition str_int (n : N) : string := decimal_aux (S (N.size_nat n)) n "".

Fixpoint zeros (k : nat) : string :=
  match k with
  | O => ""
  | S k' => String "0" (zeros k')
  end.

(** [format(n, "0{width}d")] for a non-negative int: pad with zeros on the
    left up to [width]; longer renderings are left as they are. *)
Definition zero_pad (width : nat) (s : string) : string :=
  (zeros (width - String.length s) ++ s)%string.

Definition format_06d (n : N) : string := zero_pad 6 (str_int n).

(** Reading a decimal numeral back. *)
Definition digit_val (c : ascii) : N := (N_of_ascii c - 48)%N.

Fixpoint value_from (acc : N) (s : string) : N :=
  match s with
  | EmptyString => acc
  | String c s' => value_from (10 * acc + digit_val c)%N s'
  end.

Definition value (s : string) : N := value_from 0 s.

Definition is_digit (c : ascii) : bool :=
  ((48 <=? N_of_ascii c) && (N_of_ascii c <=? 57))%N.

Fixpoint all_digits (s : string) : bool :=
  match s with
  | EmptyString => true
  | String c s' => is_digit c && all_digits s'
  end.

End PyFormat.

(** ** Module-level constants of [camera_feed.py] *)

Definition TARGET_UI_FPS : Z := 30.
Definition SAVE_RATE : Q := 60.
Definition TARGET_SAVE_INTERVAL : Q := 1 / SAVE_RATE.

Definition BASE_DIR : string := "/media/ben/Extreme SSD/particles_ML".

Fixpoint ends_with_slash (s : string) : bool :=
  match s with
  | EmptyString => false
  | String c EmptyString => Ascii.eqb c "/"
  | String _ rest => ends_with_slash rest
  end.

(** [os.path.join(a, b)] on POSIX, for two components. *)
Definition path_join (a b : string) : string :=
  match b with
  | String "/" _ => b
  | _ => if (String.eqb a "" || ends_with_slash a)%bool
         then (a ++ b)%string
         else (a ++ "/" ++ b)%string
  end.

(** [timestamp] is the value of
    [datetime.now().strftime("%Y-%m-%d_%H-%M-%S")] at import. *)
Definition RUN_DIR (timestamp : string) : string := path_join BASE_DIR timestamp.
Definition IMAGES_DIR (timestamp : string) : string :=
  path_join (RUN_DIR timestamp) "images".

(** The name given to [cv2.imwrite] for the frame with index [i]. *)
Definition frame_basename (i : N) : string :=
  ("frame_" ++ PyFormat.format_06d i ++ ".jpg")%string.
Definition frame_filename (timestamp : string) (i : N) : string :=
  path_join (IMAGES_DIR timestamp) (frame_basename i).

(** ** Exceptions *)

(** The result of a call that may raise: [Raise msg] is an exception [e]
    (an instance of [Exception]) with [str(e) = msg]. *)
Inductive outcome (A : Type) : Type :=
| Ret (a : A)
| Raise (msg : string).
Arguments Ret {A} a.
Arguments Raise {A} msg.

Definition returned {A} (o : outcome A) : bool :=
  match o with Ret _ => true | Raise _ => false end.

(** ** The environment of the acquisition thread *)

(** What [cam.RetrieveResult(5000, pylon.TimeoutHandling_ThrowException)]
    can do: hand back a grab result, whose [GrabSucceeded()] is the boolean;
    run into the 5000 ms timeout, which with [TimeoutHandling_ThrowException]
    is thrown as an exception; or throw because the device failed. *)
Inductive Retrieved : Type :=
| GrabResult (grab_succeeded : bool)
| RetrieveTimeout (msg : string)
| DeviceFailure (msg : string).

Definition retrieved_outcome (r : Retrieved) : outcome bool :=
  match r with
  | GrabResult b => Ret b
  | RetrieveTimeout msg => Raise msg
  | DeviceFailure msg => Raise msg
  end.

(** Lines 41-59: device discovery, opening and configuration. *)
Record SetupEnv : Type := {
  enumerate_devices : outcome (list string); (* tl.EnumerateDevices(): the devices found *)
  create_first_device : outcome unit;        (* pylon.InstantCamera(tl.CreateFirstDevice()) *)
  cam_open : outcome unit;                   (* cam.Open() *)
  model_name : outcome string;               (* cam.GetDeviceInfo().GetModelName() *)
  configure : outcome unit;                  (* GainAuto, Gain, PixelFormat .SetValue *)
  start_grabbing : outcome unit              (* cam.StartGrabbing(GrabStrategy_LatestImageOnly) *)
}.

(** Lines 61-80: one evaluation of the [while] condition and of the body.
    [cv2.imwrite] tells a failed write by returning [False]; called as it is
    here, with a [.jpg] name and the non-empty array of a grab that
    succeeded, it has nothing to raise about, so its result is a boolean.
    [time.time()] and [GrabSucceeded()] do not raise either. *)
Record IterEnv : Type := {
  is_grabbing : outcome bool;   (* cam.IsGrabbing() *)
  retrieve : Retrieved;         (* cam.RetrieveResult(5000, TimeoutHandling_ThrowException) *)
  convert : outcome Frame;      (* converter.Convert(grab).GetArray() *)
  time_now : Q;                 (* time.time() *)
  imwrite : bool;               (* cv2.imwrite(filename, frame): True when the file was written *)
  release : outcome unit        (* grab.Release() *)
}.

(** Lines 85-92: the [finally] block. *)
Record TeardownEnv : Type := {
  stop_grabbing : outcome unit; (* cam.StopGrabbing() *)
  close : outcome unit          (* cam.Close() *)
}.

(** ** The log of external calls *)

Inductive Call : Type :=
| EnumerateDevices | CreateFirstDevice | Open | GetModelName | Configure
| StartGrabbing | IsGrabbing | RetrieveResult | Convert | Release
| StopGrabbing | Close.

Inductive Event : Type :=
| Called (c : Call) (ok : bool)
    (* an SDK call; [ok = false] when it raised *)
| PutNowait (frame : Frame) (accepted : bool)
    (* q.put_nowait(frame); [accepted = false] when it raised queue.Full *)
| Imwrite (filename : string) (frame : Frame) (now : Q) (written : bool)
    (* cv2.imwrite(filename, frame) and its result; [now] is the clock
       reading of line 73 that admitted the frame *)
| Print (line : string).

(** ** State *)

(** Where the thread is in [run]. *)
Inductive Pc : Type :=
| NotStarted   (* started, [run] not yet entered *)
| Looping      (* at the [while] of line 61 *)
| Finalizing   (* left the [try] body, [finally] not yet run *)
| Finished.    (* [run] has returned *)

(** The fields of [CameraGrabber] ([self.q] and [self.stop_event] are the
    shared objects [q] and [stop_event] of [World]). *)
Record CameraGrabber : Type := {
  cam : option string;        (* None, or the InstantCamera of the named device *)
  converter : bool;           (* whether the ImageFormatConverter has been made *)
  err : option string;
  frame_index : N;
  last_save_time : Q
}.

(** [CameraGrabber.__init__]. *)
Definition CameraGrabber_init : CameraGrabber :=
  {| cam := None; converter := false; err := None;
     frame_index := 0%N; last_save_time := 0 |}.

(** Everything [_build_camera_window] creates. *)
Record World : Type := {
  grabber : CameraGrabber;
  q : PyQueue.t;
  stop_event : bool;
  pc : Pc;
  log : list Event;
  tk_image : option Frame;    (* the frame shown in [label] *)
  info : string;              (* the text of the [info] label *)
  destroyed : bool            (* [top.destroy()] has been called *)
}.

Definition ellipsis : string :=
  String (ascii_of_nat 226) (String (ascii_of_nat 128) (String (ascii_of_nat 166) "")).

(** The state right after [_build_camera_window] returns. *)
Definition build_camera_window : World :=
  {| grabber := CameraGrabber_init;
     q := PyQueue.new 2;
     stop_event := false;
     pc := NotStarted;
     log := [];
     tk_image := None;
     info := ("Starting camera" ++ ellipsis)%string;
     destroyed := false |}.

Definition with_grabber (g : CameraGrabber) (w : World) : World :=
  {| grabber := g; q := q w; stop_event := stop_event w; pc := pc w;
     log := log w; tk_image := tk_image w; info := info w;
     destroyed := destroyed w |}.

Definition with_q (q' : PyQueue.t) (w : World) : World :=
  {| grabber := grabber w; q := q'; stop_event := stop_event w; pc := pc w;
     log := log w; tk_image := tk_image w; info := info w;
     destroyed := destroyed w |}.

Definition with_pc (p : Pc) (w : World) : World :=
  {| grabber := grabber w; q := q w; stop_event := stop_event w; pc := p;
     log := log w; tk_image := tk_image w; info := info w;
     destroyed := destroyed w |}.

Definition with_log (l : list Event) (w : World) : World :=
  {| grabber := grabber w; q := q w; stop_event := stop_event w; pc := pc w;
     log := l; tk_image := tk_image w; info := info w;
     destroyed := destroyed w |}.

Definition set_cam (c : option string) (g : CameraGrabber) : CameraGrabber :=
  {| cam := c; converter := converter g; err := err g;
     frame_index := frame_index g; last_save_time := last_save_time g |}.

Definition set_converter (g : CameraGrabber) : CameraGrabber :=
  {| cam := cam g; converter := true; err := err g;
     frame_index := frame_index g; last_save_time := last_save_time g |}.

Definition set_err (e : string) (g : CameraGrabber) : CameraGrabber :=
  {| cam := cam g; converter := converter g; err := Some e;
     frame_index := frame_index g; last_save_time := last_save_time g |}.

(** Lines 77-78: [self.last_save_time = now; self.frame_index += 1]. *)
Definition saved_at (now : Q) (g : CameraGrabber) : CameraGrabber :=
  {| cam := cam g; converter := converter g; err := err g;
     frame_index := frame_index g + 1; last_save_time := now |}.

(** ** A state-and-exception monad for the thread's code *)

Definition M (A : Type) : Type := World -> outcome A * World.

Definition ret {A} (a : A) : M A := fun w => (Ret a, w).

Definition raise {A} (msg : string) : M A := fun w => (Raise msg, w).

Definition bind {A B} (m : M A) (k : A -> M B) : M B :=
  fun w =>
    match m w with
    | (Ret a, w') => k a w'
    | (Raise msg, w') => (Raise msg, w')
    end.

Notation "x <- m ;; k" := (bind m (fun x => k))
  (at level 61, m at next level, right associativity).
Notation "m ;; k" := (bind m (fun _ => k))
  (at level 61, right associativity).

Definition get : M World := fun w => (Ret w, w).

Definition self : M CameraGrabber := fun w => (Ret (grabber w), w).

Definition update_self (f : CameraGrabber -> CameraGrabber) : M unit :=
  fun w => (Ret tt, with_grabber (f (grabber w)) w).

Definition emit (e : Event) : M unit :=
  fun w => (Ret tt, with_log (log w ++ [e]) w).

(** An SDK call: logged, then its result or its exception. *)
Definition call {A} (c : Call) (o : outcome A) : M A :=
  emit (Called c (returned o)) ;;
  match o with
  | Ret a => ret a
  | Raise msg => raise msg
  end.

Definition print (line : string) : M unit := emit (Print line).

(** [try: body / except Exception as e: handler e]. *)
Definition try_except {A} (body : M A) (handler : string -> M A) : M A :=
  fun w =>
    match body w with
    | (Ret a, w') => (Ret a, w')
    | (Raise msg, w') => handler msg w'
    end.

(** ** [CameraGrabber.run], phase by phase *)

(** How the code before the loop ends: by falling through to the [while],
    or by the [return] of line 45. *)
Inductive Flow : Type := FallThrough | Returned.

(** Lines 41-59. *)
Definition setup (env : SetupEnv) : M Flow :=
  devs <- call EnumerateDevices (enumerate_devices env) ;;
  match devs with
  | [] =>
      update_self (set_err "No Basler camera found") ;;
      ret Returned
  | first :: _ =>
      call CreateFirstDevice (create_first_device env) ;;
      update_self (set_cam (Some first)) ;;
      call Open (cam_open env) ;;
      model <- call GetModelName (model_name env) ;;
      print ("[camera] Connected: " ++ model)%string ;;
      call Configure (configure env) ;;
      update_self set_converter ;;
      call StartGrabbing (start_grabbing env) ;;
      ret FallThrough
  end.

(** Line 61: [not self.stop_event.is_set() and self.cam.IsGrabbing()]. *)
Definition loop_cond (env : IterEnv) : M bool :=
  w <- get ;;
  if stop_event w then ret false
  else call IsGrabbing (is_grabbing env).

(** Lines 67-70: the preview path. *)
Definition preview_path (frame : Frame) : M unit :=
  w <- get ;;
  match PyQueue.put_nowait (q w) frame with
  | Some q' => (fun w => (Ret tt, with_q q' w)) ;; emit (PutNowait frame true)
  | None => emit (PutNowait frame false)
  end.

(** Line 74: [now - self.last_save_time >= TARGET_SAVE_INTERVAL], on the
    rationals the floats stand for (the difference of two clock readings of
    the same binade, and [now - 0], are exact in floating point). *)
Definition cadence_due (now last : Q) : bool :=
  Qle_bool TARGET_SAVE_INTERVAL (now - last).

(** Lines 73-78: the persistence path. *)
Definition persistence_path (timestamp : string) (env : IterEnv)
    (frame : Frame) : M unit :=
  let now := time_now env in
  g <- self ;;
  if cadence_due now (last_save_time g) then
    let filename := frame_filename timestamp (frame_index g) in
    emit (Imwrite filename frame now (imwrite env)) ;;
    update_self (saved_at now)
  else ret tt.

(** Lines 62-80: the loop body. *)
Definition loop_body (timestamp : string) (env : IterEnv) : M unit :=
  grab_succeeded <- call RetrieveResult (retrieved_outcome (retrieve env)) ;;
  (if grab_succeeded then
     frame <- call Convert (convert env) ;;
     preview_path frame ;;
     persistence_path timestamp env frame
   else ret tt) ;;
  call Release (release env).

(** Lines 82-83: [except Exception as e: self.err = str(e)]. *)
Definition on_exception (msg : string) : M unit := update_self (set_err msg).

Definition stopped_line : string := "[camera] Stopped grabbing.".

(** Lines 85-92: the [finally] block. *)
Definition teardown (env : TeardownEnv) : M unit :=
  try_except
    (g <- self ;;
     match cam g with
     | Some _ =>
         call StopGrabbing (stop_grabbing env) ;;
         call Close (close env)
     | None => ret tt
     end)
    (fun _ => ret tt) ;;
  print stopped_line.

(** ** The window's callbacks *)

(** [while True: frame = q.get_nowait()] until [queue.Empty]. *)
Fixpoint drain (fuel : nat) (frame : option Frame) (qu : PyQueue.t)
    : option Frame * PyQueue.t :=
  match fuel with
  | O => (frame, qu)
  | S fuel' =>
      match PyQueue.get_nowait qu with
      | None => (frame, qu)
      | Some (x, qu') => drain fuel' (Some x) qu'
      end
  end.

(** Python truthiness of [grabber.err]: neither [None] nor the empty
    string. *)
Definition truthy (e : option string) : bool :=
  match e with
  | None => false
  | Some s => negb (String.eqb s "")
  end.

Definition streaming_text (g : CameraGrabber) : string :=
  ("Streaming" ++ ellipsis ++ " " ++ PyFormat.str_int (frame_index g)
   ++ " frames saved")%string.

(** Lines 123-126: the text [update_ui] puts in the [info] label. *)
Definition status_text (g : CameraGrabber) : string :=
  match err g with
  | Some e => if truthy (Some e) then ("[!] " ++ e)%string else streaming_text g
  | None => streaming_text g
  end.

(** [update_ui]; a destroyed window runs no more [after] callbacks. *)
Definition update_ui (w : World) : World :=
  if destroyed w then w
  else
    let (frame, q') := drain (S (PyQueue.qsize (q w))) None (q w) in
    {| grabber := grabber w; q := q'; stop_event := stop_event w; pc := pc w;
       log := log w;
       tk_image := match frame with Some f => Some f | None => tk_image w end;
       info := status_text (grabber w);
       destroyed := destroyed w |}.

(** [on_close]: [stop_event.set(); top.destroy()]. *)
Definition on_close (w : World) : World :=
  {| grabber := grabber w; q := q w; stop_event := true; pc := pc w;
     log := log w; tk_image := tk_image w; info := info w;
     destroyed := true |}.

(** ** The two threads as a transition system *)

Inductive Action : Type :=
| Setup (env : SetupEnv)         (* the thread runs lines 41-59 *)
| Iterate (env : IterEnv)        (* the thread runs the [while] once *)
| Teardown (env : TeardownEnv)   (* the thread runs the [finally] block *)
| UiTick                         (* Tk runs [update_ui] *)
| OnClose.                       (* Tk runs [on_close] *)

(** The [except] clause, then on to [finally]. *)
Definition caught (msg : string) (w : World) : World :=
  with_pc Finalizing (snd (on_exception msg w)).

Definition step (timestamp : string) (a : Action) (w : World) : World :=
  match a, pc w with
  | Setup env, NotStarted =>
      match setup env w with
      | (Ret FallThrough, w') => with_pc Looping w'
      | (Ret Returned, w') => with_pc Finalizing w'
      | (Raise msg, w') => caught msg w'
      end
  | Iterate env, Looping =>
      match loop_cond env w with
      | (Ret true, w1) =>
          match loop_body timestamp env w1 with
          | (Ret _, w2) => w2
          | (Raise msg, w2) => caught msg w2
          end
      | (Ret false, w1) => with_pc Finalizing w1
      | (Raise msg, w1) => caught msg w1
      end
  | Teardown env, Finalizing => with_pc Finished (snd (teardown env w))
  | UiTick, _ => update_ui w
  | OnClose, _ => on_close w
  | _, _ => w
  end.

Definition exec (timestamp : string) (acts : list Action) (w : World) : World :=
  fold_left (fun w a => step timestamp a w) acts w.

(** The states of the acquisition loop as the window can tell them. *)
Inductive LoopState : Type := Idle | Running | Stopped | Failed.

Definition loop_state (w : World) : LoopState :=
  match pc w with
  | NotStarted => Idle
  | Looping => Running
  | Finalizing | Finished => if truthy (err (grabber w)) then Failed else Stopped
  end.

(** A whole life of the thread with the window idle: the code before the
    loop, one [while] round per element of [iters], then [finally]. *)
Definition run (timestamp : string) (se : SetupEnv) (iters : list IterEnv)
    (te : TeardownEnv) (w : World) : World :=
  exec timestamp (Setup se :: map Iterate iters ++ [Teardown te]) w.

(** ** Reading the log *)

Definition saved_filenames (l : list Event) : list string :=
  flat_map (fun e => match e with Imwrite f _ _ _ => [f] | _ => [] end) l.

Definition saved_times (l : list Event) : list Q :=
  flat_map (fun e => match e with Imwrite _ _ t _ => [t] | _ => [] end) l.

(** The [cv2.imwrite] calls that returned [True]. *)
Definition files_written (l : list Event) : list string :=
  flat_map (fun e => match e with Imwrite f _ _ true => [f] | _ => [] end) l.

Definition offered_frames (l : list Event) : list Frame :=
  flat_map (fun e => match e with PutNowait f _ => [f] | _ => [] end) l.

Definition is_call (c : Call) (e : Event) : bool :=
  match e, c with
  | Called EnumerateDevices _, EnumerateDevices
  | Called CreateFirstDevice _, CreateFirstDevice
  | Called Open _, Open
  | Called GetModelName _, GetModelName
  | Called Configure _, Configure
  | Called StartGrabbing _, StartGrabbing
  | Called IsGrabbing _, IsGrabbing
  | Called RetrieveResult _, RetrieveResult
  | Called Convert _, Convert
  | Called Release _, Release
  | Called StopGrabbing _, StopGrabbing
  | Called Close _, Close => true
  | _, _ => false
  end.

(** How many times the SDK call [c] was made. *)
Definition calls (c : Call) (l : list Event) : nat :=
  List.length (filter (is_call c) l).

Definition is_stopped_line (e : Event) : bool :=
  match e with
  | Print line => String.eqb line stopped_line
  | _ => false
  end.

(** How many times the last line of the [finally] block was reached. *)
Definition teardowns (l : list Event) : nat :=
  List.length (filter is_stopped_line l).

(** [0, 1, ..., n-1]. *)
Definition indices (n : N) : list N := map N.of_nat (seq 0 (N.to_nat n)).

(** Consecutive elements are at least [TARGET_SAVE_INTERVAL] apart. *)
Fixpoint spaced (ts : list Q) : Prop :=
  match ts with
  | [] => True
  | t :: rest =>
      match rest with
      | [] => True
      | t' :: _ => TARGET_SAVE_INTERVAL <= t' - t
      end /\ spaced rest
  end.

(** The code's try/except around [put_nowait], on the queue alone. *)
Definition offer (qu : PyQueue.t) (frame : Frame) : PyQueue.t :=
  match PyQueue.put_nowait qu frame with
  | Some qu' => qu'
  | None => qu
  end.

Definition offer_all (qu : PyQueue.t) (frames : list Frame) : PyQueue.t :=
  fold_left offer frames qu.

Definition left_loop (w : World) : Prop := pc w = Finalizing \/ pc w = Finished.

(** [err] is written only on the way out of the [try] body; before
    [run] is entered nothing has happened yet. *)
Definition control_inv (w : World) : Prop :=
  (err (grabber w) <> None -> left_loop w) /\
  (pc w = NotStarted -> grabber w = CameraGrabber_init /\ log w = []).


(** The SDK calls the [finally] block makes: none without a camera object;
    otherwise [StopGrabbing], and [Close] when [StopGrabbing] returned. *)
Definition teardown_calls (c : option string) (te : TeardownEnv) : list Event :=
  match c with
  | None => []
  | Some _ =>
      Called StopGrabbing (returned (stop_grabbing te))
      :: (if returned (stop_grabbing te)
          then [Called Close (returned (close te))] else [])
  end.


(** ** Sample environments *)

Module Sample.

Definition timestamp : string := "2025-10-06_21-15-32".

Definition frame : Frame := [[0; 255]; [17; 3]]%N.

(** A camera is found and every SDK call returns. *)
Definition setup_ok : SetupEnv :=
  {| enumerate_devices := Ret ["Basler acA1920-155um (40012345)"];
     create_first_device := Ret tt;
     cam_open := Ret tt;
     model_name := Ret "acA1920-155um";
     configure := Ret tt;
     start_grabbing := Ret tt |}.

(** No camera is connected. *)
Definition setup_no_device : SetupEnv :=
  {| enumerate_devices := Ret [];
     create_first_device := Ret tt;
     cam_open := Ret tt;
     model_name := Ret "";
     configure := Ret tt;
     start_grabbing := Ret tt |}.

(** A frame is retrieved at clock reading [now]; [written] is what
    [cv2.imwrite] would return. *)
Definition frame_at (now : Q) (written : bool) : IterEnv :=
  {| is_grabbing := Ret true;
     retrieve := GrabResult true;
     convert := Ret frame;
     time_now := now;
     imwrite := written;
     release := Ret tt |}.

(** The retrieval does [r] instead. *)
Definition retrieval (r : Retrieved) : IterEnv :=
  {| is_grabbing := Ret true;
     retrieve := r;
     convert := Ret frame;
     time_now := 1759785332;
     imwrite := true;
     release := Ret tt |}.

Definition teardown_ok : TeardownEnv :=
  {| stop_grabbing := Ret tt; close := Ret tt |}.

(** [StopGrabbing] raises in the [finally] block. *)
Definition teardown_stop_raises : TeardownEnv :=
  {| stop_grabbing := Raise "Device has been removed"; close := Ret tt |}.

End Sample.


(** The part of the state the persistence path reads and writes, together
    with what the log says was offered and saved. *)
Definition persist_step (ts : string) (w w' : World) : Prop :=
  (frame_index (grabber w') = frame_index (grabber w) /\
   last_save_time (grabber w') = last_save_time (grabber w) /\
   saved_filenames (log w') = saved_filenames (log w) /\
   saved_times (log w') = saved_times (log w) /\
   files_written (log w') = files_written (log w) /\
   (List.length (offered_frames (log w))
    <= List.length (offered_frames (log w')))%nat)
  \/
  (exists (now : Q) (f : Frame) (b : bool),
     cadence_due now (last_save_time (grabber w)) = true /\
     frame_index (grabber w') = (frame_index (grabber w) + 1)%N /\
     last_save_time (grabber w') = now /\
     saved_filenames (log w')
     = saved_filenames (log w) ++ [frame_filename ts (frame_index (grabber w))] /\
     saved_times (log w') = saved_times (log w) ++ [now] /\
     files_written (log w')
     = files_written (log w)
       ++ (if b then [frame_filename ts (frame_index (grabber w))] else []) /\
     offered_frames (log w') = offered_frames (log w) ++ [f]).

(** Invariant of the persistence path. *)
Definition persist_inv (ts : string) (w : World) : Prop :=
  saved_filenames (log w)
  = map (frame_filename ts) (indices (frame_index (grabber w))) /\
  spaced (0 :: saved_times (log w)) /\
  last (0 :: saved_times (log w)) 0 = last_save_time (grabber w) /\
  (List.length (saved_times (log w))
   <= List.length (offered_frames (log w)))%nat.


(** The same environment with another result for [cv2.imwrite]. *)
Definition with_imwrite (b : bool) (env : IterEnv) : IterEnv :=
  {| is_grabbing := is_grabbing env; retrieve := retrieve env;
     convert := convert env; time_now := time_now env;
     imwrite := b; release := release env |}.


(** Whether the handle taken by a successful [Open] is still held at the
    end of the log: no [Close] has returned since. *)
Definition device_open_after (l : list Event) : bool :=
  fold_left (fun held e =>
               match e with
               | Called Open true => true
               | Called Close true => false
               | _ => held
               end) l false.

Definition no_teardown_yet (l : list Event) : Prop :=
  teardowns l = 0%nat /\ calls StopGrabbing l = 0%nat /\ calls Close l = 0%nat.

(** The [finally] block has run if and only if [run] has returned, and then
    its events are the end of the log. *)
Definition teardown_inv (w : World) : Prop :=
  match pc w with
  | Finished =>
      exists te l,
        log w = l ++ teardown_calls (cam (grabber w)) te ++ [Print stopped_line]
        /\ no_teardown_yet l
  | _ => no_teardown_yet (log w)
  end.


(** The shared queue is the two-slot queue made by [_build_camera_window]
    and never holds more than two frames. *)
Definition queue_inv (w : World) : Prop :=
  PyQueue.maxsize (q w) = 2%Z /\ (PyQueue.qsize (q w) <= 2)%nat.

(** As long as the window has not drained it, the queue is what the offers
    logged so far have made of the empty queue. *)
Definition undrained (w : World) : Prop :=
  q w = offer_all (PyQueue.new 2) (offered_frames (log w)).

Definition is_tick (a : Action) : bool :=
  match a with UiTick => true | _ => false end.


(** ** Further readings of the state and of the log *)

(** The item a drain ends on: the last one queued. *)
Definition newest (l : list Frame) : option Frame :=
  nth_error l (List.length l - 1).

(** The frames handed to [cv2.imwrite], in the order of the calls. *)
Definition saved_frames (l : list Event) : list Frame :=
  flat_map (fun e => match e with Imwrite _ f _ _ => [f] | _ => [] end) l.

(** [s] is [l] with some elements left out. *)
Inductive Subseq {A : Type} : list A -> list A -> Prop :=
| Subseq_nil : Subseq [] []
| Subseq_keep (x : A) (s l : list A) : Subseq s l -> Subseq (x :: s) (x :: l)
| Subseq_drop (x : A) (s l : list A) : Subseq s l -> Subseq s (x :: l).

(** Whether lines 41-59 get to the [while]: a device is found and every
    call returns. *)
Definition setup_succeeds (env : SetupEnv) : bool :=
  match enumerate_devices env with
  | Ret (_ :: _) =>
      returned (create_first_device env) && returned (cam_open env)
      && returned (model_name env) && returned (configure env)
      && returned (start_grabbing env)
  | _ => false
  end.

(** Whether line 47 is completed, so that [self.cam] is set. *)
Definition camera_created (env : SetupEnv) : bool :=
  match enumerate_devices env with
  | Ret (_ :: _) => returned (create_first_device env)
  | _ => false
  end.

(** Whether one round of the loop gets to [grab.Release()] (line 80): the
    loop is entered, the retrieval returns, and the conversion of a
    successful grab does not raise. *)
Definition reaches_release (stop : bool) (env : IterEnv) : bool :=
  negb stop
  && match is_grabbing env with Ret true => true | _ => false end
  && match retrieve env with
     | GrabResult true => returned (convert env)
     | GrabResult false => true
     | _ => false
     end.


(** Whether one round of the loop gets to [RetrieveResult] (line 62). *)
Definition reaches_retrieval (stop : bool) (env : IterEnv) : bool :=
  negb stop && match is_grabbing env with Ret true => true | _ => false end.


(** ** The session timestamp (line 16) *)

Module Strftime.

(** The fields of [datetime.now()] that the format uses. *)
Record datetime : Type := {
  year : N; month : N; day : N; hour : N; minute : N; second : N
}.

(** The ranges [datetime] keeps its fields in, for the years whose [%Y]
    has four digits on every platform. *)
Definition in_range (d : datetime) : bool :=
  ((1000 <=? year d) && (year d <=? 9999)
   && (1 <=? month d) && (month d <=? 12)
   && (1 <=? day d) && (day d <=? 31)
   && (hour d <=? 23) && (minute d <=? 59) && (second d <=? 59))%N.

(** A decimal field zero-padded to [width]: [%m], [%d], [%H], [%M], [%S]
    with width 2, [%Y] with width 4. *)
Definition field (width : nat) (n : N) : string :=
  PyFormat.zero_pad width (PyFormat.str_int n).

(** [d.strftime("%Y-%m-%d_%H-%M-%S")]. *)
Definition session_timestamp (d : datetime) : string :=
  (field 4 (year d) ++ "-" ++ field 2 (month d) ++ "-" ++ field 2 (day d)
   ++ "_" ++ field 2 (hour d) ++ "-" ++ field 2 (minute d) ++ "-"
   ++ field 2 (second d))%string.

End Strftime.


(** ** [gui/motor_controls.py]: the serial commands *)

Module Motor.

(** [str(n)] for any int. *)
Definition str_Z (z : Z) : string :=
  if (z <? 0)%Z then ("-" ++ PyFormat.str_int (Z.to_N (- z)))%string
  else PyFormat.str_int (Z.to_N z).

Inductive Event : Type :=
| Write (bytes : string) (ok : bool)
    (* ser.write(bytes); [ok = false] when it raised *)
| SerialClose (ok : bool)          (* ser.close() *)
| Print (line : string)
| Destroy                          (* root.destroy() *)
| Exit (code : Z).                 (* sys.exit(code) *)

(** The module globals the serial commands read and write: [ser] ([None]
    when the port could not be opened at import, else the [Serial] object,
    here its [is_open]), [motor_state["running"]] and the text of
    [status_label]. The entries ["rpm"] and ["spr"] of [motor_state] are
    used only by the speed computations, which are in floating point and
    are not modelled. *)
Record State : Type := {
  ser : option bool;
  running : bool;
  status_label : string;
  log : list Event
}.

(** Lines 10-16 and 35-39, 141: the state after import. [opened] is what
    [serial.Serial(SERIAL_PORT, BAUD, timeout=1)] did; a [SerialException]
    is reported and leaves [ser = None]. *)
Definition init (opened : outcome unit) : State :=
  match opened with
  | Ret _ =>
      {| ser := Some true; running := false; status_label := "Idle";
         log := [Print "[i] Serial connected on /dev/ttyACM0 @ 115200"] |}
  | Raise e =>
      {| ser := None; running := false; status_label := "Idle";
         log := [Print ("[!] Serial error: " ++ e)%string] |}
  end.

Definition emit (evs : list Event) (s : State) : State :=
  {| ser := ser s; running := running s; status_label := status_label s;
     log := log s ++ evs |}.

(** Line 24: [f"{cmd}{val if val is not None else ''}\n".encode()]. *)
Definition message (cmd : string) (val : option Z) : string :=
  (cmd ++ match val with Some v => str_Z v | None => "" end
   ++ String (ascii_of_nat 10) "")%string.

(** Lines 19-28; [write] is what [ser.write(msg)] does if it is called. *)
Definition send_command (write : outcome unit) (cmd : string)
    (val : option Z) (s : State) : State :=
  match ser s with
  | None => emit [Print "[!] Serial not connected."] s
  | Some _ =>
      match write with
      | Ret _ => emit [Write (message cmd val) true] s
      | Raise e =>
          emit [Write (message cmd val) false;
                Print ("[!] Serial write failed: " ++ e)%string] s
      end
  end.

(** Lines 93-97. *)
Definition stop_motor (write : outcome unit) (s : State) : State :=
  let s1 := send_command write "X" None s in
  {| ser := ser s1; running := false; status_label := "Stopped";
     log := log s1 ++ [Print "[MOTOR] Stop"] |}.

(** Lines 99-101. *)
Definition reverse_motor (write : outcome unit) (s : State) : State :=
  emit [Print "[MOTOR] Reverse direction"] (send_command write "T" None s).

(** Lines 103-105. *)
Definition find_origin (write : outcome unit) (s : State) : State :=
  emit [Print "[MOTOR] Find origin (homing)"] (send_command write "L" None s).

(** Lines 118-123: close the port if there is one and it is open. *)
Definition close_serial (close : outcome unit) (s : State) : State :=
  match ser s with
  | Some true =>
      match close with
      | Ret _ =>
          {| ser := Some false; running := running s;
             status_label := status_label s;
             log := log s ++ [SerialClose true;
                              Print "[EXIT] Serial port closed."] |}
      | Raise e =>
          emit [SerialClose false;
                Print ("[EXIT] Serial close error: " ++ e)%string] s
      end
  | _ => s
  end.

(** Lines 111-125. *)
Definition on_close (write close : outcome unit) (s : State) : State :=
  let s1 := emit [Print "[EXIT] Shutting down gracefully..."] s in
  let s2 := stop_motor write s1 in
  let s3 := close_serial close s2 in
  emit [Destroy; Exit 0] s3.

(** The bytes handed to [ser.write], in order, sent or not. *)
Definition writes (l : list Event) : list string :=
  flat_map (fun e => match e with Write b _ => [b] | _ => [] end) l.

Definition close_calls (l : list Event) : nat :=
  List.length (filter (fun e => match e with SerialClose _ => true | _ => false end) l).

(** One button press or window event of the motor window. *)
Inductive Command : Type :=
| Stop (write : outcome unit)
| Reverse (write : outcome unit)
| FindOrigin (write : outcome unit).

Definition run_command (c : Command) (s : State) : State :=
  match c with
  | Stop w => stop_motor w s
  | Reverse w => reverse_motor w s
  | FindOrigin w => find_origin w s
  end.

Definition command_bytes (c : Command) : string :=
  match c with
  | Stop _ => message "X" None
  | Reverse _ => message "T" None
  | FindOrigin _ => message "L" None
  end.

End Motor.


(** ** The interpreter around the two threads *)

(** The grabber is a daemon thread (line 30: [super().__init__(daemon=True)])
    and nobody joins it (lines 130-132). When the interpreter exits, for
    instance by the [sys.exit(0)] of the motor window's [on_close], a daemon
    thread is stopped where it stands: it takes no further step, and its
    [finally] block is not run. *)
Record Process : Type := { world : World; exited : bool }.

Inductive ProcAction : Type :=
| Act (a : Action)        (* a step of the thread or of the window *)
| InterpreterExit.        (* the main thread ends the interpreter *)

Definition started (w : World) : Process := {| world := w; exited := false |}.

Definition proc_step (ts : string) (pa : ProcAction) (p : Process) : Process :=
  if exited p then p
  else match pa with
       | Act a => {| world := step ts a (world p); exited := false |}
       | InterpreterExit => {| world := world p; exited := true |}
       end.

Definition proc_exec (ts : string) (pas : list ProcAction) (p : Process)
    : Process :=
  fold_left (fun p pa => proc_step ts pa p) pas p.

(** * Properties *)

(** ** The model on concrete inputs *)

Example format_06d_0 : PyFormat.format_06d 0 = "000000".
Proof. reflexivity. Qed.

Example format_06d_42 : PyFormat.format_06d 42 = "000042".
Proof. reflexivity. Qed.

Example format_06d_999999 : PyFormat.format_06d 999999 = "999999".
Proof. reflexivity. Qed.

Example format_06d_1234567 : PyFormat.format_06d 1234567 = "1234567".
Proof. reflexivity. Qed.

Example frame_filename_7 :
  frame_filename Sample.timestamp 7
  = "/media/ben/Extreme SSD/particles_ML/2025-10-06_21-15-32/images/frame_000007.jpg".
Proof. reflexivity. Qed.

(** Three frames 10 ms apart: the first and the third are saved, the third
    finds the queue full; then the window is closed. *)
Example run_three_frames :
  let w := run Sample.timestamp Sample.setup_ok
             [Sample.frame_at 1759785332 true;
              Sample.frame_at (1759785332 + (1 # 100)) true;
              Sample.frame_at (1759785332 + (2 # 100)) true]
             Sample.teardown_ok build_camera_window in
  pc w = Looping /\
  frame_index (grabber w) = 2%N /\
  List.length (PyQueue.items (q w)) = 2%nat /\
  saved_filenames (log w)
  = [frame_filename Sample.timestamp 0; frame_filename Sample.timestamp 1] /\
  info (update_ui w) = ("Streaming" ++ ellipsis ++ " 2 frames saved")%string.
Proof. cbv zeta. repeat split. Qed.

(** ** Decimal rendering *)

Section DecimalFacts.
Import PyFormat.
Local Open Scope N_scope.

Lemma digit_val_char (d : N) : d < 10 -> digit_val (digit_char d) = d.
Proof.
  intros Hd. unfold digit_val, digit_char.
  rewrite N_ascii_embedding by lia. lia.
Qed.

Lemma is_digit_char (d : N) : d < 10 -> is_digit (digit_char d) = true.
Proof.
  intros Hd. unfold is_digit, digit_char.
  rewrite N_ascii_embedding by lia.
  apply andb_true_intro; split; apply N.leb_le; lia.
Qed.

Lemma div10_lt_pow2 (n : N) (f : nat) :
  n < 2 ^ N.of_nat (S f) -> n / 10 < 2 ^ N.of_nat f.
Proof.
  intros H. rewrite Nnat.Nat2N.inj_succ, N.pow_succ_r' in H.
  assert (10 * (n / 10) <= n) by (apply N.Div0.mul_div_le).
  lia.
Qed.

Lemma pow2_0_small (n : N) : n < 2 ^ N.of_nat 0 -> n = 0.
Proof. simpl. lia. Qed.

(** The digits are put in front of the accumulator, which is not read. *)
Lemma decimal_aux_app (fuel : nat) :
  forall n acc,
    decimal_aux fuel n acc = (decimal_aux fuel n "" ++ acc)%string.
Proof.
  induction fuel as [|f IH]; intros n acc; simpl; [reflexivity|].
  destruct (n / 10 =? 0); [reflexivity|].
  rewrite (IH _ (String _ acc)), (IH _ (String _ "")).
  generalize (decimal_aux f (n / 10) "") as d.
  induction d as [|c d IHd]; simpl; [reflexivity | now rewrite IHd].
Qed.

(** Reading the numeral back gives the number, whatever came before. *)
Lemma decimal_aux_value (fuel : nat) :
  forall n acc, n < 2 ^ N.of_nat fuel -> (0 < fuel)%nat ->
    exists k, forall a,
      value_from a (decimal_aux fuel n acc) = value_from (a * 10 ^ k + n) acc.
Proof.
  induction fuel as [|f IH]; intros n acc Hn Hf; [lia|].
  cbn [decimal_aux]. destruct (N.eqb_spec (n / 10) 0) as [Hz|Hnz].
  - exists 1. intros a. cbn [value_from].
    assert (n < 10) by (apply N.div_small_iff in Hz; lia).
    rewrite N.mod_small, digit_val_char by lia.
    f_equal. rewrite N.pow_1_r. lia.
  - assert (Hlt := div10_lt_pow2 n f Hn).
    assert (0 < f)%nat.
    { destruct f; [apply pow2_0_small in Hlt; contradiction | lia]. }
    destruct (IH (n / 10) (String (digit_char (n mod 10)) acc) Hlt H) as [k Hk].
    exists (k + 1). intros a. rewrite Hk. cbn [value_from].
    rewrite digit_val_char by (apply N.mod_lt; lia).
    f_equal. rewrite N.pow_add_r, N.pow_1_r.
    pose proof (N.div_mod n 10 ltac:(lia)). lia.
Qed.

Lemma decimal_aux_digits (fuel : nat) :
  forall n acc, all_digits acc = true ->
    all_digits (decimal_aux fuel n acc) = true.
Proof.
  induction fuel as [|f IH]; intros n acc Hacc; simpl; [assumption|].
  assert (Hd : all_digits (String (digit_char (n mod 10)) acc) = true).
  { simpl. rewrite is_digit_char by (apply N.mod_lt; lia). assumption. }
  destruct (n / 10 =? 0); [assumption | now apply IH].
Qed.

(** A number below [10^k] has at most [k] digits. *)
Lemma decimal_aux_length (fuel : nat) :
  forall n acc (k : nat), n < 2 ^ N.of_nat fuel -> (0 < k)%nat ->
    n < 10 ^ N.of_nat k ->
    (String.length (decimal_aux fuel n acc) <= k + String.length acc)%nat.
Proof.
  induction fuel as [|f IH]; intros n acc k Hn Hk Hlt;
    cbn [decimal_aux]; [lia|].
  destruct (N.eqb_spec (n / 10) 0) as [Hz|Hnz]; [cbn [String.length]; lia|].
  destruct k as [|k]; [lia|].
  assert (Hk1 : n / 10 < 10 ^ N.of_nat k).
  { rewrite Nnat.Nat2N.inj_succ, N.pow_succ_r' in Hlt.
    apply N.Div0.div_lt_upper_bound; lia. }
  assert (0 < k)%nat.
  { destruct k; [|lia]. change (10 ^ N.of_nat 0) with 1 in Hk1.
    apply N.lt_1_r in Hk1. contradiction. }
  pose proof (IH (n / 10) (String (digit_char (n mod 10)) acc) k
                (div10_lt_pow2 n f Hn) H Hk1) as Hlen.
  cbn [String.length] in Hlen. lia.
Qed.

(** From [10^k] on there are more than [k] digits. *)
Lemma decimal_aux_length_ge (fuel : nat) :
  forall n acc (k : nat), n < 2 ^ N.of_nat fuel ->
    10 ^ N.of_nat k <= n ->
    (k + String.length acc < String.length (decimal_aux fuel n acc))%nat.
Proof.
  induction fuel as [|f IH]; intros n acc k Hn Hge.
  - apply pow2_0_small in Hn. subst n.
    pose proof (N.pow_nonzero 10 (N.of_nat k) ltac:(lia)). lia.
  - cbn [decimal_aux]. destruct (N.eqb_spec (n / 10) 0) as [Hz|Hnz].
    + assert (n < 10) by (apply N.div_small_iff in Hz; lia).
      destruct k as [|k]; [cbn [String.length]; lia|].
      rewrite Nnat.Nat2N.inj_succ, N.pow_succ_r' in Hge.
      pose proof (N.pow_nonzero 10 (N.of_nat k) ltac:(lia)). lia.
    + destruct k as [|k].
      * assert (H1 : 10 ^ N.of_nat 0 <= n / 10).
        { change (10 ^ N.of_nat 0) with (N.succ 0).
          apply N.le_succ_l, N.neq_0_lt_0. assumption. }
        pose proof (IH (n / 10) (String (digit_char (n mod 10)) acc) 0%nat
                      (div10_lt_pow2 n f Hn) H1) as Hlen.
        cbn [String.length] in Hlen. lia.
      * assert (Hk1 : 10 ^ N.of_nat k <= n / 10).
        { rewrite Nnat.Nat2N.inj_succ, N.pow_succ_r' in Hge.
          apply N.div_le_lower_bound; lia. }
        pose proof (IH (n / 10) (String (digit_char (n mod 10)) acc) k
                      (div10_lt_pow2 n f Hn) Hk1) as Hlen.
        cbn [String.length] in Hlen. lia.
Qed.

Lemma pos_size_nat_gt (p : positive) :
  N.pos p < 2 ^ N.of_nat (Pos.size_nat p).
Proof.
  induction p as [p IHp|p IHp|]; cbn [Pos.size_nat];
    rewrite Nnat.Nat2N.inj_succ, N.pow_succ_r'.
  - change (N.pos p~1) with (2 * N.pos p + 1). lia.
  - change (N.pos p~0) with (2 * N.pos p). lia.
  - change (2 ^ N.of_nat 0) with 1. lia.
Qed.

Lemma size_nat_fuel (n : N) : n < 2 ^ N.of_nat (S (N.size_nat n)).
Proof.
  rewrite Nnat.Nat2N.inj_succ, N.pow_succ_r'.
  destruct n as [|p]; cbn [N.size_nat].
  - change (2 ^ N.of_nat 0) with 1. lia.
  - pose proof (pos_size_nat_gt p). lia.
Qed.

Lemma str_int_value (n : N) : value (str_int n) = n.
Proof.
  unfold value, str_int.
  destruct (decimal_aux_value _ n "" (size_nat_fuel n) ltac:(lia)) as [k Hk].
  rewrite Hk. cbn [value_from]. lia.
Qed.

Lemma str_int_digits (n : N) : all_digits (str_int n) = true.
Proof. apply decimal_aux_digits. reflexivity. Qed.

Lemma value_from_zeros (k : nat) (s : string) :
  value_from 0 (zeros k ++ s)%string = value_from 0 s.
Proof. induction k as [|k IH]; [reflexivity | exact IH]. Qed.

Lemma all_digits_zeros (k : nat) (s : string) :
  all_digits (zeros k ++ s)%string = all_digits s.
Proof. induction k as [|k IH]; [reflexivity | exact IH]. Qed.

Lemma length_zeros_app (k : nat) (s : string) :
  String.length (zeros k ++ s)%string = (k + String.length s)%nat.
Proof. induction k as [|k IH]; cbn; [reflexivity | now rewrite IH]. Qed.

(** The rendering can be read back: distinct indices get distinct
    renderings. *)
Lemma format_06d_value (n : N) : value (format_06d n) = n.
Proof.
  unfold format_06d, zero_pad, value.
  rewrite value_from_zeros. apply str_int_value.
Qed.

Lemma format_06d_digits (n : N) : all_digits (format_06d n) = true.
Proof.
  unfold format_06d, zero_pad. rewrite all_digits_zeros. apply str_int_digits.
Qed.

Lemma str_int_length_le (n : N) (k : nat) :
  (0 < k)%nat -> n < 10 ^ N.of_nat k -> (String.length (str_int n) <= k)%nat.
Proof.
  intros Hk Hn.
  pose proof (decimal_aux_length _ n "" k (size_nat_fuel n) Hk Hn) as H.
  cbn [String.length] in H. unfold str_int. lia.
Qed.

Lemma str_int_length_gt (n : N) (k : nat) :
  10 ^ N.of_nat k <= n -> (k < String.length (str_int n))%nat.
Proof.
  intros Hn.
  pose proof (decimal_aux_length_ge _ n "" k (size_nat_fuel n) Hn) as H.
  cbn [String.length] in H. unfold str_int. lia.
Qed.

(** Width: six characters up to 999999, the plain numeral beyond. *)
Lemma format_06d_length (n : N) :
  String.length (format_06d n) =
  if n <? 1000000 then 6%nat else String.length (str_int n).
Proof.
  unfold format_06d, zero_pad. rewrite length_zeros_app.
  destruct (N.ltb_spec n 1000000) as [Hlt|Hge].
  - pose proof (str_int_length_le n 6 ltac:(lia) Hlt). lia.
  - pose proof (str_int_length_gt n 6 Hge). lia.
Qed.

End DecimalFacts.

(** ** File names *)

Lemma string_app_inv_head (d s1 s2 : string) :
  (d ++ s1 = d ++ s2)%string -> s1 = s2.
Proof.
  induction d as [|c d IH]; cbn; intros H; [assumption|].
  injection H as H. auto.
Qed.

Lemma string_length_app (s1 s2 : string) :
  String.length (s1 ++ s2)%string = (String.length s1 + String.length s2)%nat.
Proof. induction s1 as [|c s1 IH]; cbn; [reflexivity | now rewrite IH]. Qed.

Lemma string_app_inv_tail (t s1 : string) :
  forall s2, (s1 ++ t = s2 ++ t)%string -> s1 = s2.
Proof.
  induction s1 as [|c s1 IH]; intros [|c' s2] H; cbn in H.
  - reflexivity.
  - apply (f_equal String.length) in H. cbn in H.
    rewrite string_length_app in H. lia.
  - apply (f_equal String.length) in H. cbn in H.
    rewrite string_length_app in H. lia.
  - injection H as Hc H. subst c'. f_equal. auto.
Qed.

(** The join only puts a separator between the directory and the name. *)
Lemma frame_filename_eq (timestamp : string) (i : N) :
  frame_filename timestamp i =
  (IMAGES_DIR timestamp
   ++ (if (String.eqb (IMAGES_DIR timestamp) ""
           || ends_with_slash (IMAGES_DIR timestamp))%bool then "" else "/")
   ++ frame_basename i)%string.
Proof.
  unfold frame_filename, path_join, frame_basename.
  cbn [append]. 
  destruct (String.eqb (IMAGES_DIR timestamp) ""
            || ends_with_slash (IMAGES_DIR timestamp))%bool; reflexivity.
Qed.

Lemma frame_filename_inj (timestamp : string) (i j : N) :
  frame_filename timestamp i = frame_filename timestamp j -> i = j.
Proof.
  rewrite !frame_filename_eq. intros H.
  apply string_app_inv_head, string_app_inv_head in H.
  unfold frame_basename in H. apply string_app_inv_head in H.
  apply string_app_inv_tail in H.
  rewrite <- (format_06d_value i), <- (format_06d_value j).
  now rewrite H.
Qed.

(** ** The preview queue *)

Lemma put_nowait_is_put (qu : PyQueue.t) (f : Frame) :
  PyQueue.put qu f false =
  match PyQueue.put_nowait qu f with
  | Some qu' => PyQueue.Stored qu'
  | None => PyQueue.Full
  end.
Proof. unfold PyQueue.put, PyQueue.put_nowait. now destruct (PyQueue.full qu). Qed.

Lemma put_nonblocking_never_waits (qu : PyQueue.t) (f : Frame) :
  PyQueue.put qu f false <> PyQueue.Blocked.
Proof. unfold PyQueue.put. now destruct (PyQueue.full qu). Qed.

Lemma full_cap2 (qu : PyQueue.t) :
  PyQueue.maxsize qu = 2%Z ->
  PyQueue.full qu = (2 <=? List.length (PyQueue.items qu))%nat.
Proof.
  intros Hm. unfold PyQueue.full, PyQueue.qsize. rewrite Hm. cbn [Z.ltb Z.compare andb].
  destruct (Nat.leb_spec 2 (List.length (PyQueue.items qu)));
    [apply Z.leb_le | apply Z.leb_gt]; lia.
Qed.

Lemma offer_maxsize (qu : PyQueue.t) (f : Frame) :
  PyQueue.maxsize (offer qu f) = PyQueue.maxsize qu.
Proof.
  unfold offer, PyQueue.put_nowait. now destruct (PyQueue.full qu).
Qed.

(** One offer to a two-slot queue: appended when there is room, dropped
    otherwise. *)
Lemma offer_cap2_items (qu : PyQueue.t) (f : Frame) :
  PyQueue.maxsize qu = 2%Z ->
  PyQueue.items (offer qu f) =
  if (2 <=? List.length (PyQueue.items qu))%nat
  then PyQueue.items qu else PyQueue.items qu ++ [f].
Proof.
  intros Hm. unfold offer, PyQueue.put_nowait. rewrite (full_cap2 qu Hm).
  now destruct (2 <=? List.length (PyQueue.items qu))%nat.
Qed.

Lemma offer_all_cap2 (frames : list Frame) :
  forall qu,
    PyQueue.maxsize qu = 2%Z ->
    (List.length (PyQueue.items qu) <= 2)%nat ->
    PyQueue.maxsize (offer_all qu frames) = 2%Z /\
    PyQueue.items (offer_all qu frames) = firstn 2 (PyQueue.items qu ++ frames).
Proof.
  induction frames as [|f rest IH]; intros qu Hm Hlen; cbn [offer_all fold_left].
  - split; [assumption|]. rewrite app_nil_r, firstn_all2; [reflexivity | assumption].
  - pose proof (offer_cap2_items qu f Hm) as Hitems.
    pose proof (offer_maxsize qu f) as Hmax. rewrite Hm in Hmax.
    destruct (Nat.leb_spec 2 (List.length (PyQueue.items qu))) as [Hfull|Hroom].
    + destruct (IH (offer qu f) Hmax ltac:(rewrite Hitems; lia)) as [IHm IHi].
      split; [exact IHm|]. unfold offer_all in IHi. rewrite IHi, Hitems.
      assert (List.length (PyQueue.items qu) = 2)%nat as H2 by lia.
      rewrite !firstn_app, H2. cbn [Nat.sub firstn]. reflexivity.
    + destruct (IH (offer qu f) Hmax
                  ltac:(rewrite Hitems, length_app; cbn [List.length]; lia))
        as [IHm IHi].
      split; [exact IHm|]. unfold offer_all in IHi. rewrite IHi, Hitems.
      now rewrite <- app_assoc.
Qed.

(** The preview path of [run] is one [offer] on the shared queue: it never
    raises and touches nothing but the queue and the log. *)
Lemma preview_path_spec (f : Frame) (w : World) :
  preview_path f w =
  (Ret tt,
   with_log (log w ++ [PutNowait f (negb (PyQueue.full (q w)))])
            (with_q (offer (q w) f) w)).
Proof.
  unfold preview_path, offer, PyQueue.put_nowait, bind, get, emit.
  destruct (PyQueue.full (q w)); reflexivity.
Qed.

Lemma drain_shrinks (fuel : nat) :
  forall fr qu,
    PyQueue.maxsize (snd (drain fuel fr qu)) = PyQueue.maxsize qu /\
    (PyQueue.qsize (snd (drain fuel fr qu)) <= PyQueue.qsize qu)%nat.
Proof.
  induction fuel as [|n IH]; intros fr [m l]; cbn; [auto|].
  destruct l as [|x rest]; cbn; [auto|].
  destruct (IH (Some x) (PyQueue.Queue m rest)) as [Hm Hl].
  cbn in Hm, Hl. unfold PyQueue.qsize in *. cbn. split; [exact Hm | lia].
Qed.

Lemma update_ui_queue (w : World) :
  PyQueue.maxsize (q (update_ui w)) = PyQueue.maxsize (q w) /\
  (PyQueue.qsize (q (update_ui w)) <= PyQueue.qsize (q w))%nat.
Proof.
  unfold update_ui. destruct (destroyed w); [auto|].
  pose proof (drain_shrinks (S (PyQueue.qsize (q w))) None (q w)) as H.
  destruct (drain _ _ _). exact H.
Qed.

Lemma offer_all_snoc (qu : PyQueue.t) (l : list Frame) (f : Frame) :
  offer_all qu (l ++ [f]) = offer (offer_all qu l) f.
Proof. unfold offer_all. now rewrite fold_left_app. Qed.

(** ** Stepping the system *)

Ltac unfold_run :=
  unfold step, caught, on_exception, setup, loop_cond, loop_body, teardown,
    persistence_path, preview_path, try_except, call, print, emit,
    update_self, self, get, bind, ret, raise, on_close,
    PyQueue.put_nowait in *.

Ltac break_scrut x :=
  lazymatch x with
  | context [match _ with _ => _ end] => fail
  | _ => destruct x eqn:?
  end.

Ltac break_match :=
  match goal with
  | |- context [match ?x with _ => _ end] => break_scrut x
  end.

(** Use what is known of the state before [run] is entered. *)
Ltac use_init :=
  repeat match goal with
  | H : ?x = ?x -> _ |- _ => specialize (H eq_refl)
  | H : grabber _ = CameraGrabber_init /\ _ |- _ =>
      let Hg := fresh "Hg" in let Hl := fresh "Hl" in
      destruct H as [Hg Hl]; rewrite ?Hg, ?Hl in *; cbn in *
  end.

(** All the paths through one step of the thread. *)
Ltac step_cases :=
  unfold_run; cbn -[frame_filename cadence_due];
  repeat (break_match; cbn -[frame_filename cadence_due]).

Lemma exec_cons (ts : string) (a : Action) (acts : list Action) (w : World) :
  exec ts (a :: acts) w = exec ts acts (step ts a w).
Proof. reflexivity. Qed.

Lemma exec_app (ts : string) (l1 l2 : list Action) (w : World) :
  exec ts (l1 ++ l2) w = exec ts l2 (exec ts l1 w).
Proof. apply fold_left_app. Qed.

(** A property kept by every step holds along every execution. *)
Lemma exec_invariant (ts : string) (P : World -> Prop) :
  (forall a w, P w -> P (step ts a w)) ->
  forall acts w, P w -> P (exec ts acts w).
Proof.
  intros Hstep acts. induction acts as [|a acts IH]; intros w Hw; [exact Hw|].
  rewrite exec_cons. apply IH, Hstep, Hw.
Qed.

(** [update_ui] reads the thread's fields and writes none of them. *)
Lemma update_ui_reads_only (w : World) :
  grabber (update_ui w) = grabber w /\ pc (update_ui w) = pc w /\
  log (update_ui w) = log w /\ stop_event (update_ui w) = stop_event w /\
  destroyed (update_ui w) = destroyed w.
Proof.
  unfold update_ui. destruct (destroyed w) eqn:Hd; [tauto|].
  destruct (drain _ _ _). cbn. tauto.
Qed.

Lemma update_ui_info (w : World) :
  destroyed w = false -> info (update_ui w) = status_text (grabber w).
Proof.
  intros Hd. unfold update_ui. rewrite Hd. now destruct (drain _ _ _).
Qed.

Ltac ui_case w :=
  destruct (update_ui_reads_only w) as (?Hg & ?Hp & ?Hl & ?Hs & ?Hd).

Lemma step_UiTick (ts : string) (w : World) : step ts UiTick w = update_ui w.
Proof. cbn. now destruct (pc w). Qed.

Lemma step_OnClose (ts : string) (w : World) : step ts OnClose w = on_close w.
Proof. cbn. now destruct (pc w). Qed.

(** The flag is only ever set. *)
Lemma step_stop_event_set (ts : string) (a : Action) (w : World) :
  stop_event w = true -> stop_event (step ts a w) = true.
Proof.
  intros H. destruct a; try (step_cases; congruence).
  rewrite step_UiTick. ui_case w. congruence.
Qed.

(** Once the [try] body is left, no field of the thread changes any more,
    and the body is not entered again. *)
Lemma step_after_loop (ts : string) (a : Action) (w : World) :
  left_loop w ->
  grabber (step ts a w) = grabber w /\ left_loop (step ts a w).
Proof.
  unfold left_loop. intros Hw. destruct a.
  - unfold step. destruct Hw as [H|H]; rewrite H; auto.
  - unfold step. destruct Hw as [H|H]; rewrite H; auto.
  - destruct Hw as [H|H]; unfold step; rewrite H; [|auto].
    step_cases; auto.
  - rewrite step_UiTick. ui_case w. rewrite Hg, Hp. auto.
  - rewrite step_OnClose. cbn. auto.
Qed.

Lemma exec_after_loop (ts : string) (acts : list Action) :
  forall w, left_loop w ->
    grabber (exec ts acts w) = grabber w /\ left_loop (exec ts acts w).
Proof.
  induction acts as [|a acts IH]; intros w Hw; [cbn; auto|].
  rewrite exec_cons.
  destruct (step_after_loop ts a w Hw) as [Hg Hl].
  destruct (IH _ Hl) as [Hg' Hl']. split; [congruence | assumption].
Qed.

Lemma step_control_inv (ts : string) (a : Action) (w : World) :
  control_inv w -> control_inv (step ts a w).
Proof.
  unfold control_inv, left_loop. intros [He Hi].
  destruct a;
    try (step_cases; split; intros; use_init; intuition congruence).
  rewrite step_UiTick. ui_case w. rewrite Hg, Hp, Hl. auto.
Qed.

Lemma build_control_inv : control_inv build_camera_window.
Proof. unfold control_inv, left_loop. cbn. split; [congruence | auto]. Qed.

Lemma reachable_control_inv (ts : string) (acts : list Action) :
  control_inv (exec ts acts build_camera_window).
Proof.
  apply exec_invariant; [apply step_control_inv | apply build_control_inv].
Qed.

Ltac log_simpl :=
  unfold calls, teardowns, saved_filenames, saved_times, files_written,
    offered_frames;
  rewrite ?filter_app, ?flat_map_app, ?length_app;
  cbn -[frame_filename cadence_due]; rewrite ?app_nil_r.

Lemma truthy_nonempty (msg : string) : msg <> "" -> truthy (Some msg) = true.
Proof.
  intros H. unfold truthy. apply negb_true_iff, String.eqb_neq, H.
Qed.

Lemma status_text_error (g : CameraGrabber) (msg : string) :
  err g = Some msg -> msg <> "" -> status_text g = ("[!] " ++ msg)%string.
Proof.
  intros He Hm. unfold status_text. now rewrite He, (truthy_nonempty msg Hm).
Qed.

Lemma loop_state_failed (w : World) (msg : string) :
  left_loop w -> err (grabber w) = Some msg -> msg <> "" ->
  loop_state w = Failed.
Proof.
  intros [H|H] He Hm; unfold loop_state;
    now rewrite H, He, (truthy_nonempty msg Hm).
Qed.

(** What the window shows on its next tick. *)
Lemma info_after_tick (w : World) :
  info (update_ui w) = if destroyed w then info w else status_text (grabber w).
Proof.
  unfold update_ui. destruct (destroyed w); [reflexivity|].
  now destruct (drain _ _ _).
Qed.

(** An error recorded on the way out stays as it is, whatever the thread
    and the window do next. *)
Lemma err_stays (ts : string) (post : list Action) (w : World) (msg : string) :
  left_loop w -> err (grabber w) = Some msg ->
  err (grabber (exec ts post w)) = Some msg /\ left_loop (exec ts post w).
Proof.
  intros Hl He. destruct (exec_after_loop ts post w Hl) as [Hg Hl'].
  now rewrite Hg.
Qed.

(** A retrieval that raises ends the loop with the message in [err]. *)
Lemma iterate_retrieve_raises (ts : string) (env : IterEnv) (w : World)
    (msg : string) :
  pc w = Looping -> stop_event w = false -> is_grabbing env = Ret true ->
  retrieved_outcome (retrieve env) = Raise msg ->
  step ts (Iterate env) w =
  with_pc Finalizing
    (with_grabber (set_err msg (grabber w))
       (with_log (log w ++ [Called IsGrabbing true; Called RetrieveResult false])
          w)).
Proof.
  intros Hpc Hstop Hg Hr. unfold step. rewrite Hpc.
  unfold_run. cbn. rewrite Hstop, Hg. cbn. rewrite Hr. cbn.
  now rewrite <- app_assoc.
Qed.

(** ** Error latching *)

(** C7. Error latching. When a retrieval raises a device failure with a
    non-empty message, the loop is left with that message in [err] and the
    state [Failed]; and after any further steps of the thread and of the
    window (ticks, close, the [finally] block) [err] is still that message,
    the state is still [Failed], and a tick of the open window shows the
    message. More generally, along every execution an [err] that has been
    set is never changed again. *)
Theorem error_latched (ts : string) (pre post : list Action) (env : IterEnv)
    (msg : string) :
  let w := exec ts pre build_camera_window in
  pc w = Looping -> stop_event w = false ->
  is_grabbing env = Ret true -> retrieve env = DeviceFailure msg ->
  msg <> "" ->
  let w1 := step ts (Iterate env) w in
  let w' := exec ts post w1 in
  (err (grabber w1) = Some msg /\ loop_state w1 = Failed) /\
  (err (grabber w') = Some msg /\ loop_state w' = Failed) /\
  info (update_ui w')
  = (if destroyed w' then info w' else ("[!] " ++ msg)%string) /\
  (forall acts more m,
      err (grabber (exec ts acts build_camera_window)) = Some m ->
      err (grabber (exec ts more (exec ts acts build_camera_window))) = Some m).
Proof.
  intros w Hpc Hstop Hg Hr Hm w1 w'.
  assert (Hw1 : w1 = with_pc Finalizing
                       (with_grabber (set_err msg (grabber w))
                          (with_log (log w ++ [Called IsGrabbing true;
                                               Called RetrieveResult false]) w))).
  { apply iterate_retrieve_raises; auto. now rewrite Hr. }
  assert (Hl1 : left_loop w1) by (left; now rewrite Hw1).
  assert (He1 : err (grabber w1) = Some msg) by now rewrite Hw1.
  destruct (err_stays ts post w1 msg Hl1 He1) as [He' Hl'].
  fold w' in He', Hl'.
  repeat split.
  - exact He1.
  - exact (loop_state_failed w1 msg Hl1 He1 Hm).
  - exact He'.
  - exact (loop_state_failed w' msg Hl' He' Hm).
  - rewrite info_after_tick. now rewrite (status_text_error _ msg He' Hm).
  - intros acts more m He.
    destruct (reachable_control_inv ts acts) as [Hc _].
    apply err_stays; [apply Hc; congruence | exact He].
Qed.

(** The device is unplugged during the second retrieval; the window ticks,
    the thread runs its [finally] block, the window ticks again. *)
Lemma error_latched_witness :
  let ts := Sample.timestamp in
  let pre := [Setup Sample.setup_ok; Iterate (Sample.frame_at 1759785332 true)] in
  let env := Sample.retrieval (DeviceFailure "Device has been removed") in
  let post := [UiTick; Teardown Sample.teardown_ok; UiTick] in
  let w := exec ts pre build_camera_window in
  let w' := exec ts post (step ts (Iterate env) w) in
  (pc w = Looping /\ stop_event w = false /\ is_grabbing env = Ret true /\
   retrieve env = DeviceFailure "Device has been removed" /\
   "Device has been removed" <> "") /\
  err (grabber w') = Some "Device has been removed" /\
  loop_state w' = Failed /\
  info (update_ui w') = "[!] Device has been removed".
Proof.
  intros ts pre env post w w'.
  assert (Hm : "Device has been removed" <> "") by discriminate.
  pose proof (error_latched ts pre post env "Device has been removed"
                eq_refl eq_refl eq_refl eq_refl Hm) as (_ & (He & Hs) & Hi & _).
  repeat split; try reflexivity; try assumption.
Defined.

(** ** No camera at startup *)

Lemma setup_without_device (ts : string) (env : SetupEnv) (w : World) :
  pc w = NotStarted -> enumerate_devices env = Ret [] ->
  step ts (Setup env) w =
  with_pc Finalizing
    (with_grabber (set_err "No Basler camera found" (grabber w))
       (with_log (log w ++ [Called EnumerateDevices true]) w)).
Proof.
  intros Hpc He. unfold step. rewrite Hpc. unfold_run. cbn. rewrite He. cbn.
  reflexivity.
Qed.

(** C5, as the code has it. With no device found by [EnumerateDevices]
    nothing is raised: lines 44-45 set [err = "No Basler camera found"] and
    return, so the code before the loop ends normally, by its [return]; no
    camera object is made and nothing is opened or retrieved. Whatever the thread and the window do afterwards, [err] is
    that non-empty string, [frame_index] is 0, the state is [Failed], and a
    tick of the open window shows the message. *)
Theorem no_device_found (ts : string) (pre post : list Action)
    (env : SetupEnv) :
  let w0 := exec ts pre build_camera_window in
  pc w0 = NotStarted -> enumerate_devices env = Ret [] ->
  let w1 := step ts (Setup env) w0 in
  let w := exec ts post w1 in
  (fst (setup env w0) = Ret Returned /\
   log w1 = [Called EnumerateDevices true] /\ pc w1 = Finalizing) /\
  err (grabber w) = Some "No Basler camera found" /\
  frame_index (grabber w) = 0%N /\
  cam (grabber w) = None /\
  loop_state w = Failed /\
  info (update_ui w)
  = (if destroyed w then info w else "[!] No Basler camera found").
Proof.
  intros w0 Hpc He w1 w.
  destruct (reachable_control_inv ts pre) as [_ Hinit].
  destruct (Hinit Hpc) as [Hg0 Hl0]. fold w0 in Hg0, Hl0.
  assert (Hw1 : w1 = with_pc Finalizing
                       (with_grabber (set_err "No Basler camera found"
                                        (grabber w0))
                          (with_log (log w0 ++ [Called EnumerateDevices true])
                             w0)))
    by (apply setup_without_device; assumption).
  assert (Hl1 : left_loop w1) by (left; now rewrite Hw1).
  destruct (exec_after_loop ts post w1 Hl1) as [Hg Hl]. fold w in Hg, Hl.
  assert (Hgw : grabber w = set_err "No Basler camera found" CameraGrabber_init).
  { rewrite Hg, Hw1. cbn. now rewrite Hg0. }
  assert (Hm : "No Basler camera found" <> "") by discriminate.
  repeat split.
  - unfold setup, call, bind, emit, ret, update_self. now rewrite He.
  - rewrite Hw1. cbn. now rewrite Hl0.
  - now rewrite Hw1.
  - now rewrite Hgw.
  - now rewrite Hgw.
  - now rewrite Hgw.
  - apply (loop_state_failed w "No Basler camera found"); auto. now rewrite Hgw.
  - rewrite info_after_tick.
    rewrite (status_text_error _ "No Basler camera found"); auto.
    now rewrite Hgw.
Qed.

(** The window ticks before the thread gets to run; no camera is connected;
    then the [finally] block runs and the window ticks twice. *)
Lemma no_device_found_witness :
  let ts := Sample.timestamp in
  let w0 := exec ts [UiTick] build_camera_window in
  let w := exec ts [UiTick; Teardown Sample.teardown_ok; UiTick]
             (step ts (Setup Sample.setup_no_device) w0) in
  (pc w0 = NotStarted /\ enumerate_devices Sample.setup_no_device = Ret []) /\
  err (grabber w) = Some "No Basler camera found" /\
  frame_index (grabber w) = 0%N /\
  info (update_ui w) = "[!] No Basler camera found" /\
  log w = [Called EnumerateDevices true; Print "[camera] Stopped grabbing."].
Proof.
  intros ts w0 w.
  pose proof (no_device_found ts [UiTick]
                [UiTick; Teardown Sample.teardown_ok; UiTick]
                Sample.setup_no_device eq_refl eq_refl)
    as (_ & He & Hi & _ & _ & Hinfo).
  repeat split; try reflexivity; assumption.
Defined.

(** ** Cancellation *)

(** With the flag set no step performs a retrieval. *)
Lemma step_no_retrieval_when_set (ts : string) (a : Action) (w : World) :
  stop_event w = true ->
  calls RetrieveResult (log (step ts a w)) = calls RetrieveResult (log w).
Proof.
  intros Hs. destruct a; try (step_cases; log_simpl; try congruence; lia).
  rewrite step_UiTick. ui_case w. now rewrite Hl.
Qed.

Lemma exec_no_retrieval_when_set (ts : string) (acts : list Action) :
  forall w, stop_event w = true ->
    calls RetrieveResult (log (exec ts acts w)) = calls RetrieveResult (log w).
Proof.
  induction acts as [|a acts IH]; intros w Hs; [reflexivity|].
  rewrite exec_cons, IH by (now apply step_stop_event_set).
  now apply step_no_retrieval_when_set.
Qed.

(** The [finally] block never raises, and does what [teardown_calls]
    says. *)
Lemma teardown_spec (te : TeardownEnv) (w : World) :
  teardown te w =
  (Ret tt,
   with_log (log w ++ teardown_calls (cam (grabber w)) te
             ++ [Print stopped_line]) w).
Proof.
  unfold teardown_calls, stopped_line. step_cases;
    rewrite <- ?app_assoc; reflexivity.
Qed.

Lemma step_teardown (ts : string) (te : TeardownEnv) (w : World) :
  pc w = Finalizing ->
  step ts (Teardown te) w =
  with_pc Finished
    (with_log (log w ++ teardown_calls (cam (grabber w)) te
               ++ [Print stopped_line]) w).
Proof. intros H. unfold step. now rewrite H, teardown_spec. Qed.

Lemma iterate_flag_set (ts : string) (env : IterEnv) (w : World) :
  pc w = Looping -> stop_event w = true ->
  step ts (Iterate env) w = with_pc Finalizing w.
Proof.
  intros Hpc Hs. unfold step. rewrite Hpc. unfold_run. now rewrite Hs.
Qed.

Lemma looping_no_err (ts : string) (pre : list Action) :
  pc (exec ts pre build_camera_window) = Looping ->
  err (grabber (exec ts pre build_camera_window)) = None.
Proof.
  intros Hpc. destruct (reachable_control_inv ts pre) as [Hc _].
  destruct (err (grabber (exec ts pre build_camera_window))) eqn:He; [|reflexivity].
  destruct Hc as [H|H]; congruence.
Qed.

(** Cancellation by the flag. When the thread comes to the [while] with
    the flag set, it makes no call at all (the test short-circuits before
    [IsGrabbing], so before any retrieval), changes nothing and leaves the
    loop in the state [Stopped]; the [finally] block then runs and [run]
    returns, still [Stopped]. From any state with the flag set, no sequence
    of steps performs a further retrieval, and the flag is never cleared.
    [on_close] itself only sets the flag and destroys the window: the
    thread's position, fields and log are untouched. *)
Theorem cooperative_cancellation (ts : string) (pre : list Action)
    (env : IterEnv) (te : TeardownEnv) :
  let w := exec ts pre build_camera_window in
  pc w = Looping -> stop_event w = true ->
  let w1 := step ts (Iterate env) w in
  let w2 := step ts (Teardown te) w1 in
  (w1 = with_pc Finalizing w /\ loop_state w1 = Stopped) /\
  (pc w2 = Finished /\ loop_state w2 = Stopped /\
   log w2 = log w ++ teardown_calls (cam (grabber w)) te ++ [Print stopped_line]) /\
  (forall v acts, stop_event v = true ->
     stop_event (exec ts acts v) = true /\
     calls RetrieveResult (log (exec ts acts v)) = calls RetrieveResult (log v)) /\
  (forall v, stop_event (on_close v) = true /\ pc (on_close v) = pc v /\
             grabber (on_close v) = grabber v /\ log (on_close v) = log v).
Proof.
  intros w Hpc Hs w1 w2.
  assert (Hw1 : w1 = with_pc Finalizing w) by (now apply iterate_flag_set).
  assert (He : err (grabber w) = None) by (now apply looping_no_err).
  assert (Hw2 : w2 = with_pc Finished
                       (with_log (log w1 ++ teardown_calls (cam (grabber w1)) te
                                  ++ [Print stopped_line]) w1))
    by (apply step_teardown; now rewrite Hw1).
  repeat split.
  - exact Hw1.
  - rewrite Hw1. unfold loop_state. cbn. now rewrite He.
  - now rewrite Hw2.
  - rewrite Hw2, Hw1. unfold loop_state. cbn. now rewrite He.
  - now rewrite Hw2, Hw1.
  - apply (exec_invariant ts (fun x => stop_event x = true)); auto.
    intros a x. apply step_stop_event_set.
  - now apply exec_no_retrieval_when_set.
Qed.

(** One frame is saved, the window is closed, the thread comes back to the
    [while] and leaves. *)
Lemma cooperative_cancellation_witness :
  let ts := Sample.timestamp in
  let pre := [Setup Sample.setup_ok; Iterate (Sample.frame_at 1759785332 true);
              OnClose] in
  let w := exec ts pre build_camera_window in
  let w2 := step ts (Teardown Sample.teardown_ok)
              (step ts (Iterate (Sample.frame_at 1759785333 true)) w) in
  (pc w = Looping /\ stop_event w = true) /\
  pc w2 = Finished /\ loop_state w2 = Stopped /\
  log w2 = log w ++ [Called StopGrabbing true; Called Close true;
                     Print "[camera] Stopped grabbing."].
Proof.
  intros ts pre w w2.
  pose proof (cooperative_cancellation ts pre
                (Sample.frame_at 1759785333 true) Sample.teardown_ok
                eq_refl eq_refl) as (_ & (Hp & Hst & Hlog) & _).
  repeat split; try reflexivity; assumption.
Defined.

(** ** The persistence path *)

Lemma cadence_due_iff (now last : Q) :
  cadence_due now last = true <-> TARGET_SAVE_INTERVAL <= now - last.
Proof. unfold cadence_due. apply Qle_bool_iff. Qed.

Lemma persistence_path_spec (ts : string) (env : IterEnv) (f : Frame)
    (w : World) :
  persistence_path ts env f w =
  (Ret tt,
   if cadence_due (time_now env) (last_save_time (grabber w))
   then with_grabber (saved_at (time_now env) (grabber w))
          (with_log (log w ++ [Imwrite (frame_filename ts (frame_index (grabber w)))
                                 f (time_now env) (imwrite env)]) w)
   else w).
Proof.
  unfold persistence_path, bind, self, emit, update_self, ret.
  now destruct (cadence_due _ _).
Qed.

(** Every step either leaves the persistence record alone or adds one
    frame to it, and then the cadence test had passed. *)
Lemma step_persist (ts : string) (a : Action) (w : World) :
  persist_step ts w (step ts a w).
Proof.
  unfold persist_step.
  destruct a;
    try (step_cases; log_simpl;
         first [ left; repeat split; auto; lia
               | right; eexists _, _, _; repeat split; eauto; fail ]).
  rewrite step_UiTick. ui_case w. rewrite Hg, Hl. left. repeat split; auto.
Qed.

Lemma indices_succ (n : N) : indices (n + 1) = indices n ++ [n].
Proof.
  unfold indices. rewrite N.add_1_r, Nnat.N2Nat.inj_succ, seq_S, map_app.
  cbn. now rewrite Nnat.N2Nat.id.
Qed.

Lemma indices_length (n : N) : List.length (indices n) = N.to_nat n.
Proof. unfold indices. now rewrite length_map, length_seq. Qed.

Lemma spaced_snoc (l : list Q) (t0 t : Q) :
  spaced (t0 :: l) -> TARGET_SAVE_INTERVAL <= t - last (t0 :: l) 0 ->
  spaced (t0 :: l ++ [t]).
Proof.
  revert t0. induction l as [|x l IH]; intros t0 Hs Ht.
  - cbn in *. tauto.
  - destruct Hs as [Hx Hs]. split; [exact Hx|].
    apply IH; [exact Hs|]. exact Ht.
Qed.

Lemma spaced_tail (t0 : Q) (l : list Q) : spaced (t0 :: l) -> spaced l.
Proof. intros [_ H]. exact H. Qed.

Lemma last_snoc (l : list Q) (t0 t : Q) : last (t0 :: l ++ [t]) 0 = t.
Proof. change (t0 :: l ++ [t]) with ((t0 :: l) ++ [t]). apply last_last. Qed.

Lemma step_persist_inv (ts : string) (a : Action) (w : World) :
  persist_inv ts w -> persist_inv ts (step ts a w).
Proof.
  unfold persist_inv. intros (Hn & Hs & Hl & Ho).
  destruct (step_persist ts a w)
    as [(Hi & Ht & Hf & Hst & _ & Hof)
       |(now & f & b & Hdue & Hi & Ht & Hf & Hst & _ & Hof)].
  - rewrite Hi, Ht, Hf, Hst. split; [|split; [|split]]; auto. lia.
  - rewrite Hi, Ht, Hf, Hst, Hof, indices_succ, map_app, Hn.
    apply cadence_due_iff in Hdue. rewrite <- Hl in Hdue.
    split; [|split; [|split]].
    + reflexivity.
    + now apply spaced_snoc.
    + apply last_snoc.
    + rewrite !length_app. cbn. lia.
Qed.

Lemma build_persist_inv (ts : string) : persist_inv ts build_camera_window.
Proof. unfold persist_inv. cbn. split; [|split; [|split]]; auto. Qed.

Lemma reachable_persist_inv (ts : string) (acts : list Action) :
  persist_inv ts (exec ts acts build_camera_window).
Proof.
  apply exec_invariant; [apply step_persist_inv | apply build_persist_inv].
Qed.

Lemma saved_lists_length (l : list Event) :
  List.length (saved_times l) = List.length (saved_filenames l) /\
  (List.length (files_written l) <= List.length (saved_filenames l))%nat.
Proof.
  induction l as [|e l [IH1 IH2]]; [cbn; auto|].
  unfold saved_times, saved_filenames, files_written in *.
  destruct e as [| | fn f t [|] |]; cbn; lia.
Qed.

(** For a retrieved frame the body is: preview path, persistence path,
    release. *)
Lemma loop_body_frame (ts : string) (env : IterEnv) (f : Frame) (w : World) :
  retrieve env = GrabResult true -> convert env = Ret f ->
  loop_body ts env w =
  call Release (release env)
    (snd (persistence_path ts env f
            (snd (preview_path f
                    (with_log (log w ++ [Called RetrieveResult true;
                                         Called Convert true]) w))))).
Proof.
  intros Hr Hc. destruct w as [g qu se p l img inf d].
  unfold loop_body, persistence_path, preview_path, PyQueue.put_nowait,
    call, bind, emit, ret, raise, get, self, update_self.
  rewrite Hr, Hc. cbn -[frame_filename cadence_due].
  destruct (PyQueue.full qu); cbn -[frame_filename cadence_due];
    destruct (cadence_due _ _); cbn -[frame_filename cadence_due];
    destruct (release env); cbn -[frame_filename cadence_due];
    rewrite <- ?app_assoc; reflexivity.
Qed.

(** C3. The persistence path is a greedy fixed-rate sampler. For a
    retrieved frame it never raises and decides by the test of line 74,
    which holds exactly when [now - last_save_time] is at least
    [TARGET_SAVE_INTERVAL]: if so the frame is written under the next file
    name, [last_save_time] becomes [now] and [frame_index] grows by one;
    if not, nothing changes at all. Consequently, along every execution,
    the clock readings of the persisted frames are pairwise at least
    [TARGET_SAVE_INTERVAL] apart from one to the next, and
    [last_save_time] is the reading of the last persisted frame. *)
Theorem greedy_fixed_rate_sampler (ts : string) (acts : list Action)
    (env : IterEnv) (f : Frame) (v : World) :
  let now := time_now env in
  let due := cadence_due now (last_save_time (grabber v)) in
  let v' := snd (persistence_path ts env f v) in
  fst (persistence_path ts env f v) = Ret tt /\
  (due = true <-> TARGET_SAVE_INTERVAL <= now - last_save_time (grabber v)) /\
  (if due
   then last_save_time (grabber v') = now /\
        frame_index (grabber v') = (frame_index (grabber v) + 1)%N /\
        log v' = log v ++ [Imwrite (frame_filename ts (frame_index (grabber v)))
                             f now (imwrite env)]
   else v' = v) /\
  (forall w, retrieve env = GrabResult true -> convert env = Ret f ->
     loop_body ts env w =
     call Release (release env)
       (snd (persistence_path ts env f
               (snd (preview_path f
                       (with_log (log w ++ [Called RetrieveResult true;
                                            Called Convert true]) w)))))) /\
  let w := exec ts acts build_camera_window in
  spaced (saved_times (log w)) /\
  last (0 :: saved_times (log w)) 0 = last_save_time (grabber w).
Proof.
  intros now due v'. subst v'. rewrite persistence_path_spec.
  split; [reflexivity|]. split; [apply cadence_due_iff|].
  split; [|split].
  - subst due now. cbn [snd].
    destruct (cadence_due _ _); [repeat split | reflexivity].
  - intros w. apply loop_body_frame.
  - intros w. destruct (reachable_persist_inv ts acts) as (_ & Hs & Hl & _).
    split; [exact (spaced_tail _ _ Hs) | exact Hl].
Qed.

(** ** File indices *)

Lemma ends_with_slash_app (a b : string) :
  b <> "" -> ends_with_slash (a ++ b)%string = ends_with_slash b.
Proof.
  intros Hb. induction a as [|c a IH]; [reflexivity|].
  cbn [append ends_with_slash]. rewrite IH.
  destruct (a ++ b)%string eqn:Hab; [|reflexivity].
  destruct a; cbn in Hab; [contradiction | discriminate].
Qed.

Lemma string_app_nonempty (a b : string) : b <> "" -> (a ++ b)%string <> "".
Proof. intros Hb. destruct a; cbn; [exact Hb | discriminate]. Qed.

(** The image directory is the run directory and then [images]: it is not
    empty and does not end with a separator. *)
Lemma IMAGES_DIR_shape (ts : string) :
  String.eqb (IMAGES_DIR ts) "" = false /\
  ends_with_slash (IMAGES_DIR ts) = false.
Proof.
  unfold IMAGES_DIR, path_join. cbn match.
  destruct (String.eqb (RUN_DIR ts) "" || ends_with_slash (RUN_DIR ts))%bool.
  - split; [apply String.eqb_neq, string_app_nonempty; discriminate|].
    rewrite ends_with_slash_app by discriminate. reflexivity.
  - split; [apply String.eqb_neq, string_app_nonempty; discriminate|].
    rewrite ends_with_slash_app by discriminate. reflexivity.
Qed.

Lemma frame_filename_shape (ts : string) (i : N) :
  frame_filename ts i
  = (IMAGES_DIR ts ++ "/frame_" ++ PyFormat.format_06d i ++ ".jpg")%string.
Proof.
  rewrite frame_filename_eq. destruct (IMAGES_DIR_shape ts) as [H1 H2].
  rewrite H1, H2. reflexivity.
Qed.

Lemma nth_error_indices (n : N) (k : nat) :
  nth_error (indices n) k
  = if (k <? N.to_nat n)%nat then Some (N.of_nat k) else None.
Proof.
  unfold indices. rewrite nth_error_map.
  destruct (Nat.ltb_spec k (N.to_nat n)) as [Hlt|Hge].
  - rewrite nth_error_nth' with (d := 0%nat) by (now rewrite length_seq).
    rewrite seq_nth by assumption. reflexivity.
  - assert (H : nth_error (seq 0 (N.to_nat n)) k = None)
      by (apply nth_error_None; now rewrite length_seq).
    now rewrite H.
Qed.

Lemma NoDup_indices (n : N) : NoDup (indices n).
Proof.
  unfold indices. apply Injective_map_NoDup; [|apply seq_NoDup].
  intros a b H. now apply Nnat.Nat2N.inj.
Qed.

Lemma files_written_incl (l : list Event) (x : string) :
  In x (files_written l) -> In x (saved_filenames l).
Proof.
  unfold files_written, saved_filenames.
  induction l as [|e l IH]; [auto|].
  destruct e as [| | fn f t [|] |]; cbn; intuition.
Qed.

Lemma files_written_NoDup (l : list Event) :
  NoDup (saved_filenames l) -> NoDup (files_written l).
Proof.
  induction l as [|e l IH]; [constructor|].
  pose proof (files_written_incl l) as Hincl.
  unfold files_written, saved_filenames in *.
  destruct e as [| | fn f t [|] |]; cbn; auto; intros Hnd;
    inversion Hnd as [|x xs Hx Hxs]; subst; auto.
  constructor; auto.
Qed.

(** C6. Along every execution the names given to [cv2.imwrite], in the
    order of the calls, are those of the indices 0, 1, ..., [frame_index]-1
    in this order: the k-th file saved has index k, so the indices start at
    0, increase strictly by one and never repeat, and no two saved files
    share a name (nor do the files whose write succeeded). The name is the
    image directory, [/frame_], the index rendered by [06d], and [.jpg];
    the rendering is the decimal numeral of the index (it reads back as the
    index), all digits, six characters wide with leading zeros up to 999999
    and the plain numeral beyond. *)
Theorem saved_file_indexing (ts : string) (acts : list Action) :
  let w := exec ts acts build_camera_window in
  let n := frame_index (grabber w) in
  saved_filenames (log w) = map (frame_filename ts) (indices n) /\
  (forall k, nth_error (saved_filenames (log w)) k
             = if (k <? N.to_nat n)%nat
               then Some (frame_filename ts (N.of_nat k)) else None) /\
  NoDup (saved_filenames (log w)) /\
  NoDup (files_written (log w)) /\
  (forall i, frame_filename ts i
             = (IMAGES_DIR ts ++ "/frame_" ++ PyFormat.format_06d i
                ++ ".jpg")%string) /\
  (forall i, PyFormat.value (PyFormat.format_06d i) = i /\
             PyFormat.all_digits (PyFormat.format_06d i) = true /\
             String.length (PyFormat.format_06d i)
             = if (i <? 1000000)%N then 6%nat
               else String.length (PyFormat.str_int i)).
Proof.
  intros w n. destruct (reachable_persist_inv ts acts) as (Hn & _).
  fold w in Hn. fold n in Hn. rewrite Hn.
  assert (Hnd : NoDup (map (frame_filename ts) (indices n))).
  { apply Injective_map_NoDup; [|apply NoDup_indices].
    intros i j. apply frame_filename_inj. }
  split; [reflexivity|]. split; [|split; [|split; [|split]]].
  - intros k. rewrite nth_error_map, nth_error_indices.
    now destruct (k <? N.to_nat n)%nat.
  - exact Hnd.
  - apply files_written_NoDup. now rewrite Hn.
  - apply frame_filename_shape.
  - intros i. split; [apply format_06d_value|].
    split; [apply format_06d_digits | apply format_06d_length].
Qed.

(** ** The first frame *)

(** Before any frame has been retrieved nothing has been saved. *)
Lemma nothing_saved_before_first_frame (ts : string) (pre : list Action) :
  let w := exec ts pre build_camera_window in
  offered_frames (log w) = [] ->
  frame_index (grabber w) = 0%N /\ last_save_time (grabber w) = 0 /\
  saved_filenames (log w) = [].
Proof.
  intros w Ho. destruct (reachable_persist_inv ts pre) as (Hn & _ & Hl & Hle).
  fold w in Hn, Hl, Hle. rewrite Ho in Hle. cbn in Hle.
  destruct (saved_lists_length (log w)) as [Hlen _].
  assert (Ht : saved_times (log w) = [])
    by (destruct (saved_times (log w)); [reflexivity | cbn in Hle; lia]).
  assert (Hf : saved_filenames (log w) = []).
  { rewrite Ht in Hlen. cbn in Hlen.
    destruct (saved_filenames (log w)); [reflexivity | discriminate]. }
  rewrite Ht in Hl. cbn in Hl.
  split; [|split]; auto.
  apply (f_equal (@List.length _)) in Hn.
  rewrite Hf, length_map, indices_length in Hn. cbn in Hn. lia.
Qed.

(** C9. The first frame retrieved in a session is persisted: with
    [last_save_time] still at its initial 0, the cadence test reads
    [now - 0 >= TARGET_SAVE_INTERVAL], which holds as soon as the wall clock
    reads at least one interval past the epoch. The frame is written as
    index 0 and [frame_index] becomes 1 (whatever [imwrite] returns and
    whether or not the release that follows raises). *)
Theorem first_frame_is_persisted (ts : string) (pre : list Action)
    (f : Frame) (now : Q) (written : bool) (rel : outcome unit) :
  let w := exec ts pre build_camera_window in
  let env := {| is_grabbing := Ret true; retrieve := GrabResult true;
                convert := Ret f; time_now := now; imwrite := written;
                release := rel |} in
  pc w = Looping -> stop_event w = false ->
  offered_frames (log w) = [] ->
  TARGET_SAVE_INTERVAL <= now ->
  let w' := step ts (Iterate env) w in
  frame_index (grabber w') = 1%N /\
  last_save_time (grabber w') = now /\
  saved_filenames (log w') = [frame_filename ts 0] /\
  offered_frames (log w') = [f].
Proof.
  intros w env Hpc Hstop Ho Hnow w'.
  destruct (nothing_saved_before_first_frame ts pre Ho) as (Hi & Hl & Hf).
  fold w in Hi, Hl, Hf.
  assert (Hdue : cadence_due now (last_save_time (grabber w)) = true).
  { apply cadence_due_iff. rewrite Hl. lra. }
  subst w' env. unfold step. rewrite Hpc. unfold_run.
  cbn -[frame_filename cadence_due]. rewrite Hstop.
  cbn -[frame_filename cadence_due].
  destruct (PyQueue.full (q w)); cbn -[frame_filename cadence_due];
    rewrite Hdue; cbn -[frame_filename cadence_due];
    destruct rel; cbn -[frame_filename cadence_due];
    log_simpl; fold (saved_filenames (log w)); fold (offered_frames (log w));
    rewrite Hi, Hf, Ho; auto.
Qed.

(** The camera is opened, the first grab fails, the second gives a frame. *)
Lemma first_frame_is_persisted_witness :
  let ts := Sample.timestamp in
  let pre := [Setup Sample.setup_ok;
              Iterate (Sample.retrieval (GrabResult false))] in
  let w := exec ts pre build_camera_window in
  let w' := step ts (Iterate (Sample.frame_at 1759785332 false)) w in
  (pc w = Looping /\ stop_event w = false /\ offered_frames (log w) = [] /\
   TARGET_SAVE_INTERVAL <= 1759785332) /\
  frame_index (grabber w') = 1%N /\
  saved_filenames (log w')
  = ["/media/ben/Extreme SSD/particles_ML/2025-10-06_21-15-32/images/frame_000000.jpg"].
Proof.
  intros ts pre w w'.
  assert (Hnow : TARGET_SAVE_INTERVAL <= 1759785332)
    by (apply Qle_bool_iff; reflexivity).
  pose proof (first_frame_is_persisted ts pre Sample.frame 1759785332 false
                (Ret tt) eq_refl eq_refl eq_refl Hnow) as (Hi & _ & Hf & _).
  repeat split; try reflexivity; assumption.
Defined.

(** ** The saved-frame counter and the files written *)

(** C10. The result of [cv2.imwrite] is not looked at: for a retrieved frame
    the fields of the thread after the persistence path are the same
    whether the write returns [True] or [False], namely [last_save_time =
    now] and [frame_index + 1] when the cadence test holds, and unchanged
    otherwise. So along every execution [frame_index] is the number of
    [cv2.imwrite] calls made, of which those that wrote a file are at most
    as many; and there is an execution (one frame, whose write fails) where
    the counter is 1 and no file was written. *)
Theorem saved_count_counts_attempts (ts : string) (acts : list Action)
    (env : IterEnv) (f : Frame) (v : World) :
  (forall b,
     grabber (snd (persistence_path ts (with_imwrite b env) f v))
     = if cadence_due (time_now env) (last_save_time (grabber v))
       then saved_at (time_now env) (grabber v) else grabber v) /\
  (let w := exec ts acts build_camera_window in
   frame_index (grabber w) = N.of_nat (List.length (saved_filenames (log w))) /\
   (List.length (files_written (log w))
    <= List.length (saved_filenames (log w)))%nat) /\
  (let w := exec Sample.timestamp
              [Setup Sample.setup_ok;
               Iterate (Sample.frame_at 1759785332 false)]
              build_camera_window in
   frame_index (grabber w) = 1%N /\
   List.length (saved_filenames (log w)) = 1%nat /\
   files_written (log w) = []).
Proof.
  split; [|split].
  - intros b. rewrite persistence_path_spec. cbn [time_now with_imwrite snd].
    now destruct (cadence_due _ _).
  - intros w. destruct (reachable_persist_inv ts acts) as (Hn & _).
    fold w in Hn. split; [|apply saved_lists_length].
    rewrite Hn, length_map, indices_length. now rewrite Nnat.N2Nat.id.
  - repeat split.
Qed.

(** ** Retrieval timeouts *)

(** A grab result whose [GrabSucceeded()] is false is released and the loop
    goes on. *)
Lemma iterate_grab_failed (ts : string) (env : IterEnv) (w : World) :
  pc w = Looping -> stop_event w = false -> is_grabbing env = Ret true ->
  retrieve env = GrabResult false -> release env = Ret tt ->
  step ts (Iterate env) w =
  with_log (log w ++ [Called IsGrabbing true; Called RetrieveResult true;
                      Called Release true]) w.
Proof.
  intros Hpc Hstop Hg Hr Hrel. destruct w as [g qu se p l img inf d].
  cbn in Hpc, Hstop. subst p se.
  unfold step. unfold_run. cbn. rewrite Hg. cbn. rewrite Hr. cbn.
  rewrite Hrel. cbn. now rewrite <- !app_assoc.
Qed.

(** C1, as the code has it. [RetrieveResult] is called with
    [TimeoutHandling_ThrowException], so a timeout comes as an exception and
    is handled by the one [except] clause of [run], exactly as a device
    failure is: its message goes to [err], the loop is left (nothing is
    offered to the queue or saved in that round) and the [finally] block is
    next; with a non-empty message the state is [Failed]. What the loop
    does pass over without an error is a grab result that did not succeed:
    the result is released and the loop stays in [Running]. *)
Theorem retrieval_timeout_is_raised (ts : string) (env : IterEnv) (w : World)
    (msg : string) :
  pc w = Looping -> stop_event w = false -> is_grabbing env = Ret true ->
  retrieve env = RetrieveTimeout msg ->
  let w' := step ts (Iterate env) w in
  (err (grabber w') = Some msg /\ pc w' = Finalizing /\
   loop_state w' = (if truthy (Some msg) then Failed else Stopped) /\
   log w' = log w ++ [Called IsGrabbing true; Called RetrieveResult false] /\
   q w' = q w /\ frame_index (grabber w') = frame_index (grabber w)) /\
  (forall env', is_grabbing env' = Ret true ->
                retrieve env' = DeviceFailure msg ->
                step ts (Iterate env') w = w') /\
  (forall env', is_grabbing env' = Ret true ->
                retrieve env' = GrabResult false -> release env' = Ret tt ->
                let w'' := step ts (Iterate env') w in
                pc w'' = Looping /\ loop_state w'' = Running /\
                grabber w'' = grabber w /\
                log w'' = log w ++ [Called IsGrabbing true;
                                    Called RetrieveResult true;
                                    Called Release true]).
Proof.
  intros Hpc Hstop Hg Hr w'.
  assert (Hw' : w' = with_pc Finalizing
                       (with_grabber (set_err msg (grabber w))
                          (with_log (log w ++ [Called IsGrabbing true;
                                               Called RetrieveResult false]) w)))
    by (apply iterate_retrieve_raises; auto; now rewrite Hr).
  split; [|split].
  - rewrite Hw'. unfold loop_state. cbn. repeat split.
  - intros env' Hg' Hr'. rewrite Hw'.
    apply iterate_retrieve_raises; auto. now rewrite Hr'.
  - intros env' Hg' Hr' Hrel w''. subst w''.
    rewrite (iterate_grab_failed ts env' w Hpc Hstop Hg' Hr' Hrel).
    unfold loop_state. cbn. rewrite Hpc. repeat split.
Qed.

(** The camera is opened and the first retrieval times out. *)
Lemma retrieval_timeout_is_raised_witness :
  let ts := Sample.timestamp in
  let w := exec ts [Setup Sample.setup_ok] build_camera_window in
  let env := Sample.retrieval (RetrieveTimeout "Grab timed out.") in
  let w' := step ts (Iterate env) w in
  (pc w = Looping /\ stop_event w = false /\ is_grabbing env = Ret true /\
   retrieve env = RetrieveTimeout "Grab timed out.") /\
  err (grabber w') = Some "Grab timed out." /\ pc w' = Finalizing /\
  loop_state w' = Failed.
Proof.
  intros ts w env w'.
  pose proof (retrieval_timeout_is_raised ts env w "Grab timed out."
                eq_refl eq_refl eq_refl eq_refl)
    as ((He & Hp & Hs & _) & _).
  repeat split; try reflexivity; assumption.
Defined.

(** C1, as the spec words it, fails: after a camera is opened, a round whose
    retrieval times out does not leave the loop in [Running] with [err]
    untouched. It leaves it [Failed], with the message of the timeout in
    [err], and the thread is on its way to the [finally] block. *)
Lemma retrieval_timeout_not_swallowed :
  let ts := Sample.timestamp in
  let w := exec ts [Setup Sample.setup_ok] build_camera_window in
  let w' := step ts (Iterate (Sample.retrieval (RetrieveTimeout "Grab timed out.")))
              w in
  (loop_state w = Running /\ err (grabber w) = None) /\
  loop_state w' = Failed /\
  err (grabber w') = Some "Grab timed out." /\
  pc w' = Finalizing /\
  ~ (loop_state w' = Running /\ err (grabber w') = err (grabber w)).
Proof.
  cbv zeta. repeat split. intros [H _]. discriminate H.
Qed.

(** ** Teardown *)

Lemma teardown_calls_counts (c : option string) (te : TeardownEnv) :
  teardowns (teardown_calls c te) = 0%nat /\
  calls StopGrabbing (teardown_calls c te)
  = (match c with Some _ => 1 | None => 0 end)%nat /\
  calls Close (teardown_calls c te)
  = (match c with
     | Some _ => if returned (stop_grabbing te) then 1 else 0
     | None => 0
     end)%nat.
Proof.
  unfold teardown_calls. destruct c; [|repeat split].
  destruct (returned (stop_grabbing te)); repeat split.
Qed.

Lemma step_teardown_inv (ts : string) (a : Action) (w : World) :
  teardown_inv w -> teardown_inv (step ts a w).
Proof.
  unfold teardown_inv, no_teardown_yet. intros H.
  destruct a.
  - destruct (pc w) eqn:Hpc; unfold step; rewrite Hpc; rewrite ?Hpc;
      try exact H.
    destruct H as (H1 & H2 & H3). unfold teardowns, calls in *.
    step_cases; log_simpl; repeat split; lia.
  - destruct (pc w) eqn:Hpc; unfold step; rewrite Hpc; rewrite ?Hpc;
      try exact H.
    destruct H as (H1 & H2 & H3). unfold teardowns, calls in *.
    step_cases; try discriminate; log_simpl; repeat split; lia.
  - destruct (pc w) eqn:Hpc;
      try (unfold step; rewrite Hpc; rewrite Hpc; exact H).
    rewrite (step_teardown ts env w Hpc). cbn.
    exists env, (log w). split; [reflexivity | exact H].
  - rewrite step_UiTick. ui_case w. now rewrite Hp, Hl, Hg.
  - rewrite step_OnClose. exact H.
Qed.

Lemma reachable_teardown_inv (ts : string) (acts : list Action) :
  teardown_inv (exec ts acts build_camera_window).
Proof.
  apply exec_invariant; [apply step_teardown_inv|].
  unfold teardown_inv, no_teardown_yet. cbn. auto.
Qed.

(** [run] returns only through its [finally] block. *)
Lemma step_to_finished (ts : string) (a : Action) (w : World) :
  pc (step ts a w) = Finished ->
  pc w = Finished \/ (pc w = Finalizing /\ exists te, a = Teardown te).
Proof.
  destruct a.
  - destruct (pc w) eqn:Hpc; unfold step; rewrite Hpc; auto;
      step_cases; intros H; congruence.
  - destruct (pc w) eqn:Hpc; unfold step; rewrite Hpc; auto;
      step_cases; intros H; congruence.
  - destruct (pc w) eqn:Hpc; unfold step; rewrite Hpc; intros H;
      try congruence; eauto.
  - rewrite step_UiTick. ui_case w. rewrite Hp. auto.
  - rewrite step_OnClose. cbn. auto.
Qed.

(** Teardown is the [finally] block. As long as the thread runs, it is run
    exactly once on every path out of the [try] body: along every execution
    its last line has been reached once if [run] has returned and not at all
    before, and [run] returns only by running it. It never raises, whatever
    [StopGrabbing] and [Close] do, and touches nothing but the log. What it
    attempts depends on [self.cam]: with no camera object, nothing; with
    one, [StopGrabbing], and then [Close] if [StopGrabbing] returned. So
    [StopGrabbing] is called at most once, and [Close] at most as often. *)
Theorem teardown_runs_once (ts : string) (acts : list Action)
    (te : TeardownEnv) :
  let w := exec ts acts build_camera_window in
  teardowns (log w) = (match pc w with Finished => 1 | _ => 0 end)%nat /\
  calls StopGrabbing (log w)
  = (match pc w, cam (grabber w) with Finished, Some _ => 1 | _, _ => 0 end)%nat /\
  (calls Close (log w) <= calls StopGrabbing (log w))%nat /\
  (forall v, teardown te v
             = (Ret tt,
                with_log (log v ++ teardown_calls (cam (grabber v)) te
                          ++ [Print stopped_line]) v)) /\
  (forall v, pc v = Finalizing -> pc (step ts (Teardown te) v) = Finished) /\
  (forall a v, pc (step ts a v) = Finished ->
               pc v = Finished \/ (pc v = Finalizing /\ exists te', a = Teardown te')) /\
  (forall c, teardown_calls c te
             = match c with
               | None => []
               | Some _ =>
                   match stop_grabbing te with
                   | Ret _ => [Called StopGrabbing true;
                               Called Close (returned (close te))]
                   | Raise _ => [Called StopGrabbing false]
                   end
               end).
Proof.
  intros w. pose proof (reachable_teardown_inv ts acts) as Hinv.
  fold w in Hinv. unfold teardown_inv, no_teardown_yet in Hinv.
  assert (Hcounts :
    teardowns (log w) = (match pc w with Finished => 1 | _ => 0 end)%nat /\
    calls StopGrabbing (log w)
    = (match pc w, cam (grabber w) with Finished, Some _ => 1 | _, _ => 0 end)%nat /\
    (calls Close (log w) <= calls StopGrabbing (log w))%nat).
  { destruct (pc w).
    1-3: destruct Hinv as (H1 & H2 & H3); rewrite H1, H2, H3; auto.
    destruct Hinv as (te' & l & Hlog & H1 & H2 & H3).
    destruct (teardown_calls_counts (cam (grabber w)) te') as (T1 & T2 & T3).
    rewrite Hlog. unfold teardowns, calls in *.
    rewrite !filter_app, !length_app, H1, H2, H3, T1, T2, T3. cbn.
    destruct (cam (grabber w)); [|auto].
    destruct (returned (stop_grabbing te')); auto. }
  destruct Hcounts as (C1 & C2 & C3).
  split; [exact C1|]. split; [exact C2|]. split; [exact C3|].
  split; [intros v; apply teardown_spec|].
  split; [intros v Hv; now rewrite (step_teardown ts te v Hv)|].
  split; [intros a v; apply step_to_finished|].
  intros [c|]; [|reflexivity]. unfold teardown_calls.
  now destruct (stop_grabbing te).
Qed.


(** ** The preview queue in the running system *)

Lemma step_queue_inv (ts : string) (a : Action) (w : World) :
  queue_inv w -> queue_inv (step ts a w).
Proof.
  unfold queue_inv, PyQueue.qsize. intros [Hm Hl].
  destruct a; try (step_cases; auto; fail).
  - pose proof (full_cap2 (q w) Hm) as Hfull.
    step_cases; auto;
      symmetry in Hfull; apply Nat.leb_gt in Hfull;
      (split; [assumption | rewrite length_app; cbn; lia]).
  - rewrite step_UiTick. destruct (update_ui_queue w) as [Hm' Hl'].
    unfold PyQueue.qsize in Hl'. split; [congruence | lia].
Qed.

Lemma step_undrained (ts : string) (a : Action) (w : World) :
  is_tick a = false -> undrained w -> undrained (step ts a w).
Proof.
  unfold undrained. intros Ha Hq.
  destruct a; try discriminate;
    step_cases; try assumption;
    unfold offered_frames in *; rewrite ?flat_map_app; cbn;
    rewrite ?app_nil_r; try assumption;
    unfold offer_all in Hq; rewrite fold_left_app, <- Hq; cbn [fold_left];
    unfold offer, PyQueue.put_nowait;
    match goal with H : PyQueue.full (q w) = _ |- _ => now rewrite H end.
Qed.

Lemma exec_undrained (ts : string) (acts : list Action) :
  forall w, forallb (fun a => negb (is_tick a)) acts = true ->
            undrained w -> undrained (exec ts acts w).
Proof.
  induction acts as [|a acts IH]; intros w Hacts Hw; [exact Hw|].
  cbn in Hacts. apply andb_true_iff in Hacts. destruct Hacts as [Ha Hacts].
  rewrite exec_cons. apply IH; [exact Hacts|].
  apply step_undrained; [now apply negb_true_iff | exact Hw].
Qed.

(** C4. Insertion attempts into the capacity-2 preview queue with no drain
    in between. No attempt waits: [put_nowait] is the non-blocking [put],
    which stores or raises [Full] at once, and the preview path of [run]
    turns [Full] into a skip (it never raises). The queue holds at most two
    frames after every prefix of the attempts, and in the running system at
    every point of every execution. An attempt on a full queue leaves the
    queue as it was. The frames held after [N] attempts are the first
    [min(N, 2)] offered, in the order offered; and so it is in the running
    system: as long as the window has not ticked, the shared queue holds the
    first two of the frames the thread has offered. *)
Theorem preview_queue_drop_newest (frames : list Frame) :
  (forall qu f, PyQueue.put qu f false <> PyQueue.Blocked) /\
  (forall f w, fst (preview_path f w) = Ret tt /\
               q (snd (preview_path f w)) = offer (q w) f) /\
  (forall k,
     (PyQueue.qsize (offer_all (PyQueue.new 2) (firstn k frames)) <= 2)%nat) /\
  (forall qu f, offer qu f
                = if PyQueue.full qu then qu
                  else PyQueue.Queue (PyQueue.maxsize qu)
                         (PyQueue.items qu ++ [f])) /\
  PyQueue.items (offer_all (PyQueue.new 2) frames) = firstn 2 frames /\
  PyQueue.qsize (offer_all (PyQueue.new 2) frames)
  = Nat.min (List.length frames) 2 /\
  (forall ts acts,
     (PyQueue.qsize (q (exec ts acts build_camera_window)) <= 2)%nat) /\
  (forall ts acts,
     forallb (fun a => negb (is_tick a)) acts = true ->
     PyQueue.items (q (exec ts acts build_camera_window))
     = firstn 2 (offered_frames (log (exec ts acts build_camera_window)))).
Proof.
  assert (Hall : forall l,
             PyQueue.items (offer_all (PyQueue.new 2) l) = firstn 2 l).
  { intros l.
    destruct (offer_all_cap2 l (PyQueue.new 2) eq_refl ltac:(cbn; lia)) as [_ H].
    exact H. }
  split; [apply put_nonblocking_never_waits|].
  split; [intros f w; now rewrite preview_path_spec|].
  split; [intros k; unfold PyQueue.qsize; rewrite Hall, length_firstn; lia|].
  split; [intros qu f; unfold offer, PyQueue.put_nowait;
          now destruct (PyQueue.full qu)|].
  split; [apply Hall|].
  split; [unfold PyQueue.qsize; rewrite Hall, length_firstn; lia|].
  split.
  - intros ts acts.
    apply (exec_invariant ts queue_inv (step_queue_inv ts) acts).
    unfold queue_inv. cbn. split; [reflexivity | lia].
  - intros ts acts Hacts.
    pose proof (exec_undrained ts acts build_camera_window Hacts eq_refl) as Hq.
    unfold undrained in Hq. rewrite Hq. apply Hall.
Qed.

(** * Further properties of [camera_feed.py] *)

(** ** [update_ui]: drain to the latest frame *)

Lemma drain_all (fuel : nat) :
  forall fr qu,
    (List.length (PyQueue.items qu) <= fuel)%nat ->
    drain fuel fr qu =
    (match newest (PyQueue.items qu) with Some f => Some f | None => fr end,
     PyQueue.Queue (PyQueue.maxsize qu) []).
Proof.
  induction fuel as [|n IH]; intros fr [m l] Hlen; cbn in Hlen.
  - destruct l; [reflexivity | cbn in Hlen; lia].
  - destruct l as [|x rest]; [reflexivity|].
    cbn [drain PyQueue.get_nowait PyQueue.items PyQueue.maxsize].
    rewrite IH by (cbn in *; lia).
    cbn [PyQueue.items PyQueue.maxsize]. unfold newest.
    cbn [List.length Nat.sub]. rewrite Nat.sub_0_r.
    destruct rest as [|y rest']; [reflexivity|].
    cbn [List.length Nat.sub nth_error]. rewrite Nat.sub_0_r.
    now destruct (nth_error (y :: rest') (List.length rest')) eqn:E;
      [|apply nth_error_None in E; cbn in E; lia].
Qed.

(** X1. A tick of the open window empties the preview queue and shows the
    frame that was queued last; with nothing queued the picture stays as it
    was. The tick writes the [info] text and nothing else: the thread's
    fields, its position, the flag and the log are as before. *)
Theorem update_ui_drains_to_latest (w : World) :
  destroyed w = false ->
  PyQueue.items (q (update_ui w)) = [] /\
  PyQueue.maxsize (q (update_ui w)) = PyQueue.maxsize (q w) /\
  tk_image (update_ui w)
  = match newest (PyQueue.items (q w)) with
    | Some f => Some f
    | None => tk_image w
    end /\
  (PyQueue.items (q w) = [] -> tk_image (update_ui w) = tk_image w) /\
  info (update_ui w) = status_text (grabber w) /\
  grabber (update_ui w) = grabber w /\ pc (update_ui w) = pc w /\
  stop_event (update_ui w) = stop_event w /\ log (update_ui w) = log w.
Proof.
  intros Hd. unfold update_ui. rewrite Hd.
  rewrite (drain_all _ None (q w)) by (unfold PyQueue.qsize; lia).
  cbn. repeat split.
  - now destruct (newest (PyQueue.items (q w))).
  - intros He. now rewrite He.
Qed.

(** Two frames are queued; the tick shows the second and leaves the queue
    empty. *)
Lemma update_ui_drains_to_latest_witness :
  let w := exec Sample.timestamp
             [Setup Sample.setup_ok;
              Iterate (Sample.frame_at 1759785332 true);
              Iterate (Sample.retrieval (GrabResult true))]
             build_camera_window in
  destroyed w = false /\
  List.length (PyQueue.items (q w)) = 2%nat /\
  PyQueue.items (q (update_ui w)) = [] /\
  tk_image (update_ui w) = Some Sample.frame.
Proof.
  intros w.
  pose proof (update_ui_drains_to_latest w eq_refl) as (Hq & _ & Hi & _).
  repeat split; try reflexivity; assumption.
Defined.

(** ** [update_ui]: the status line *)

(** X2. What the window shows after the loop was ended by an exception
    depends on the truthiness of [err]. A non-empty message is shown behind
    ["[!] "] and the state is [Failed]. An exception whose message is the
    empty string leaves [err = ""], which line 123 takes for no error: the
    state reads [Stopped] and the window shows the streaming line with the
    count of saved frames, whose numeral reads back as [frame_index]. *)
Theorem status_line_after_exception (ts : string) (w : World)
    (env : IterEnv) (msg : string) :
  pc w = Looping -> stop_event w = false ->
  is_grabbing env = Ret true ->
  retrieved_outcome (retrieve env) = Raise msg ->
  let w' := step ts (Iterate env) w in
  err (grabber w') = Some msg /\
  loop_state w' = (if String.eqb msg "" then Stopped else Failed) /\
  status_text (grabber w')
  = (if String.eqb msg ""
     then ("Streaming" ++ ellipsis ++ " "
           ++ PyFormat.str_int (frame_index (grabber w)) ++ " frames saved")%string
     else ("[!] " ++ msg)%string) /\
  PyFormat.value (PyFormat.str_int (frame_index (grabber w)))
  = frame_index (grabber w) /\
  (destroyed w' = false -> info (update_ui w') = status_text (grabber w')).
Proof.
  intros Hpc Hstop Hg Hr w'.
  assert (Hw' : w' = with_pc Finalizing
                       (with_grabber (set_err msg (grabber w))
                          (with_log (log w ++ [Called IsGrabbing true;
                                               Called RetrieveResult false]) w)))
    by (now apply iterate_retrieve_raises).
  assert (He : err (grabber w') = Some msg) by now rewrite Hw'.
  assert (Hp : pc w' = Finalizing) by now rewrite Hw'.
  assert (Hi : frame_index (grabber w') = frame_index (grabber w))
    by now rewrite Hw'.
  split; [exact He|].
  split; [unfold loop_state, truthy; rewrite Hp, He;
          now destruct (String.eqb msg "")|].
  split; [unfold status_text, streaming_text, truthy; rewrite He, Hi;
          now destruct (String.eqb msg "")|].
  split; [apply str_int_value|].
  intros Hd. rewrite info_after_tick. now rewrite Hd.
Qed.

(** One frame is saved, then the retrieval raises an exception with no
    message: the window goes on showing the streaming line. *)
Lemma status_line_after_exception_witness :
  let ts := Sample.timestamp in
  let pre := [Setup Sample.setup_ok; Iterate (Sample.frame_at 1759785332 true)] in
  let env := Sample.retrieval (DeviceFailure "") in
  let w := exec ts pre build_camera_window in
  let w' := step ts (Iterate env) w in
  (pc w = Looping /\ stop_event w = false /\ is_grabbing env = Ret true /\
   retrieved_outcome (retrieve env) = Raise "") /\
  err (grabber w') = Some "" /\ loop_state w' = Stopped /\
  status_text (grabber w')
  = ("Streaming" ++ ellipsis ++ " 1 frames saved")%string.
Proof.
  intros ts pre env w w'.
  pose proof (status_line_after_exception ts w env ""
                eq_refl eq_refl eq_refl eq_refl) as (He & Hs & Ht & _).
  repeat split; try reflexivity; assumption.
Defined.

(** ** The code before the loop *)

(** X3. Lines 41-59 enter the loop only if a device is found and every SDK
    call returns: then [err] is untouched, [self.cam] is the camera of the
    first device found and the converter is made. In every other case the
    loop is never entered and [err] is set (to the fixed text when no
    device was found, to the message of the exception otherwise). Either
    way no frame is retrieved, offered or saved, and [self.cam] is set
    exactly when line 47 was completed, whatever fails after it. *)
Theorem setup_all_or_nothing (ts : string) (env : SetupEnv) (w : World) :
  pc w = NotStarted ->
  let w' := step ts (Setup env) w in
  pc w' = (if setup_succeeds env then Looping else Finalizing) /\
  (if setup_succeeds env
   then err (grabber w') = err (grabber w) /\ converter (grabber w') = true
   else exists msg, err (grabber w') = Some msg) /\
  cam (grabber w')
  = (if camera_created env
     then match enumerate_devices env with
          | Ret (first :: _) => Some first
          | _ => None
          end
     else cam (grabber w)) /\
  q w' = q w /\
  frame_index (grabber w') = frame_index (grabber w) /\
  last_save_time (grabber w') = last_save_time (grabber w) /\
  calls RetrieveResult (log w') = calls RetrieveResult (log w) /\
  offered_frames (log w') = offered_frames (log w) /\
  saved_filenames (log w') = saved_filenames (log w).
Proof.
  intros Hpc w'. subst w'. unfold step. rewrite Hpc.
  unfold setup_succeeds, camera_created.
  step_cases; log_simpl; repeat split; eauto; lia.
Qed.

(** A camera is found but [Open] raises. *)
Lemma setup_all_or_nothing_witness :
  let env := {| enumerate_devices := Ret ["Basler acA1920-155um (40012345)"];
                create_first_device := Ret tt;
                cam_open := Raise "Device is exclusively opened by another client";
                model_name := Ret "acA1920-155um";
                configure := Ret tt;
                start_grabbing := Ret tt |} in
  let w' := step Sample.timestamp (Setup env) build_camera_window in
  pc build_camera_window = NotStarted /\
  pc w' = Finalizing /\
  cam (grabber w') = Some "Basler acA1920-155um (40012345)" /\
  err (grabber w') = Some "Device is exclusively opened by another client".
Proof.
  intros env w'.
  pose proof (setup_all_or_nothing Sample.timestamp env build_camera_window
                eq_refl) as (Hp & _ & Hc & _).
  repeat split; try reflexivity; assumption.
Defined.

(** X4. When the code before the loop fails, the [finally] block cleans up
    according to whether the camera object had been made, not to how far
    the camera got: if line 47 was completed, [StopGrabbing] is attempted
    (and [Close] after it, if it returns) even though [Open] or
    [StartGrabbing] may never have succeeded; if it was not, nothing is
    stopped or closed. In both cases [run] returns and the error recorded
    by the failure is kept, whatever the cleanup calls do. *)
Theorem cleanup_after_failed_setup (ts : string) (pre : list Action)
    (env : SetupEnv) (te : TeardownEnv) :
  let w := exec ts pre build_camera_window in
  pc w = NotStarted -> setup_succeeds env = false ->
  let w1 := step ts (Setup env) w in
  let w2 := step ts (Teardown te) w1 in
  pc w2 = Finished /\
  err (grabber w2) = err (grabber w1) /\
  (exists msg, err (grabber w2) = Some msg) /\
  calls StopGrabbing (log w2) = (if camera_created env then 1 else 0)%nat /\
  calls Close (log w2)
  = (if camera_created env && returned (stop_grabbing te) then 1 else 0)%nat /\
  calls RetrieveResult (log w2) = 0%nat /\
  teardowns (log w2) = 1%nat.
Proof.
  intros w Hpc Hfail w1 w2.
  destruct (reachable_control_inv ts pre) as [_ Hinit].
  destruct (Hinit Hpc) as [Hg0 Hl0]. fold w in Hg0, Hl0.
  subst w2 w1. revert Hfail. unfold setup_succeeds, camera_created.
  unfold step at 2. rewrite Hpc.
  unfold_run; cbn -[frame_filename cadence_due];
    repeat (break_match; cbn -[frame_filename cadence_due]);
    intros Hfail; try discriminate;
    try match goal with
        | H : cam (grabber w) = Some _ |- _ => rewrite Hg0 in H; discriminate
        end;
    rewrite ?Hg0, ?Hl0; cbn; repeat split; eauto;
    destruct (stop_grabbing te); cbn; repeat split; eauto.
Qed.

(** A camera is found, [Open] raises, and the cleanup goes through. *)
Lemma cleanup_after_failed_setup_witness :
  let env := {| enumerate_devices := Ret ["Basler acA1920-155um (40012345)"];
                create_first_device := Ret tt;
                cam_open := Raise "Device is exclusively opened by another client";
                model_name := Ret "acA1920-155um";
                configure := Ret tt;
                start_grabbing := Ret tt |} in
  let w := exec Sample.timestamp [] build_camera_window in
  let w2 := step Sample.timestamp (Teardown Sample.teardown_ok)
              (step Sample.timestamp (Setup env) w) in
  (pc w = NotStarted /\ setup_succeeds env = false) /\
  pc w2 = Finished /\
  calls Open (log w2) = 1%nat /\
  calls StopGrabbing (log w2) = 1%nat /\ calls Close (log w2) = 1%nat /\
  err (grabber w2) = Some "Device is exclusively opened by another client".
Proof.
  intros env w w2.
  pose proof (cleanup_after_failed_setup Sample.timestamp [] env
                Sample.teardown_ok eq_refl eq_refl)
    as (Hp & _ & _ & Hs & Hc & _).
  repeat split; try reflexivity; assumption.
Defined.

(** ** One round of the loop *)

(** X5. In one round of the loop [RetrieveResult] is called at most once,
    and only when the flag is clear and [IsGrabbing] returned true; the grab
    result is released (line 80) when the retrieval returned and, for a
    successful grab, the conversion did not raise. A grab result whose
    conversion raises is therefore never released: the exception skips line
    80, the loop ends and the message is in [err]. The release is the last
    thing in the round, so the frame has been offered and, if due, saved
    even when the release itself raises. *)
Theorem grab_release_accounting (ts : string) (env : IterEnv) (w : World) :
  pc w = Looping ->
  let w' := step ts (Iterate env) w in
  calls RetrieveResult (log w')
  = (calls RetrieveResult (log w)
     + if reaches_retrieval (stop_event w) env then 1 else 0)%nat /\
  calls Release (log w')
  = (calls Release (log w)
     + if reaches_release (stop_event w) env then 1 else 0)%nat /\
  (reaches_retrieval (stop_event w) env = true ->
   retrieve env = GrabResult true ->
   forall msg, convert env = Raise msg ->
     calls Release (log w') = calls Release (log w) /\
     err (grabber w') = Some msg /\ pc w' = Finalizing /\
     offered_frames (log w') = offered_frames (log w)) /\
  (reaches_retrieval (stop_event w) env = true ->
   retrieve env = GrabResult true ->
   forall f msg, convert env = Ret f -> release env = Raise msg ->
     offered_frames (log w') = offered_frames (log w) ++ [f] /\
     frame_index (grabber w')
     = (frame_index (grabber w)
        + if cadence_due (time_now env) (last_save_time (grabber w))
          then 1 else 0)%N /\
     err (grabber w') = Some msg /\ pc w' = Finalizing).
Proof.
  intros Hpc w'. subst w'. unfold step. rewrite Hpc.
  unfold reaches_retrieval, reaches_release.
  split; [|split; [|split]].
  - step_cases; log_simpl; lia.
  - unfold_run.
    destruct (retrieve env) as [[|]| |] eqn:Hret;
      destruct (convert env) eqn:Hconv;
      cbn -[frame_filename cadence_due];
      repeat (break_match; cbn -[frame_filename cadence_due]);
      log_simpl; lia.
  - intros Hr Hret msg Hc. revert Hr. unfold_run. rewrite Hret, Hc.
    cbn -[frame_filename cadence_due].
    repeat (break_match; cbn -[frame_filename cadence_due]);
      intros Hr; try discriminate; log_simpl; repeat split; lia.
  - intros Hr Hret f msg Hc Hrel. revert Hr. unfold_run.
    rewrite Hret, Hc, Hrel. cbn -[frame_filename cadence_due].
    repeat (break_match; cbn -[frame_filename cadence_due]);
      intros Hr; try discriminate; log_simpl;
      rewrite ?N.add_0_r; repeat split.
Qed.

(** A frame is grabbed but its conversion raises. *)
Lemma grab_release_accounting_witness :
  let env := {| is_grabbing := Ret true; retrieve := GrabResult true;
                convert := Raise "Cannot convert image";
                time_now := 1759785332; imwrite := true;
                release := Ret tt |} in
  let w := exec Sample.timestamp [Setup Sample.setup_ok] build_camera_window in
  let w' := step Sample.timestamp (Iterate env) w in
  pc w = Looping /\
  calls RetrieveResult (log w') = 1%nat /\
  calls Release (log w') = 0%nat /\
  err (grabber w') = Some "Cannot convert image".
Proof.
  intros env w w'.
  pose proof (grab_release_accounting Sample.timestamp env w eq_refl)
    as (Hr & Hl & _).
  repeat split; try reflexivity; assumption.
Defined.

(** X6. When the camera has stopped grabbing on its own ([IsGrabbing]
    returns false with the flag still clear), the loop ends without a
    retrieval and without an error: the state is [Stopped] although nobody
    asked to stop, [err] stays [None] through the cleanup and ever after,
    and the window goes on showing the streaming line with the last count. *)
Theorem loop_ends_when_camera_stops (ts : string) (pre post : list Action)
    (env : IterEnv) :
  let w := exec ts pre build_camera_window in
  pc w = Looping -> stop_event w = false -> is_grabbing env = Ret false ->
  let w1 := step ts (Iterate env) w in
  let w' := exec ts post w1 in
  w1 = with_pc Finalizing (with_log (log w ++ [Called IsGrabbing true]) w) /\
  loop_state w1 = Stopped /\
  err (grabber w') = None /\ loop_state w' = Stopped /\
  frame_index (grabber w') = frame_index (grabber w) /\
  status_text (grabber w')
  = ("Streaming" ++ ellipsis ++ " "
     ++ PyFormat.str_int (frame_index (grabber w)) ++ " frames saved")%string.
Proof.
  intros w Hpc Hstop Hg w1 w'.
  assert (He : err (grabber w) = None) by (now apply looping_no_err).
  assert (Hw1 : w1 = with_pc Finalizing
                       (with_log (log w ++ [Called IsGrabbing true]) w)).
  { subst w1. unfold step. rewrite Hpc. unfold_run. cbn.
    rewrite Hstop, Hg. reflexivity. }
  assert (Hl1 : left_loop w1) by (left; now rewrite Hw1).
  destruct (exec_after_loop ts post w1 Hl1) as [Hgr Hl']. fold w' in Hgr, Hl'.
  assert (Hgw : grabber w' = grabber w) by (rewrite Hgr, Hw1; reflexivity).
  split; [exact Hw1|].
  split; [rewrite Hw1; unfold loop_state; cbn; now rewrite He|].
  split; [now rewrite Hgw|].
  split; [unfold loop_state; destruct Hl' as [H|H]; rewrite H, Hgw, He;
          reflexivity|].
  split; [now rewrite Hgw|].
  unfold status_text, streaming_text. now rewrite Hgw, He.
Qed.

(** One frame is saved, then the camera reports that it is not grabbing. *)
Lemma loop_ends_when_camera_stops_witness :
  let ts := Sample.timestamp in
  let pre := [Setup Sample.setup_ok; Iterate (Sample.frame_at 1759785332 true)] in
  let env := {| is_grabbing := Ret false; retrieve := GrabResult true;
                convert := Ret Sample.frame; time_now := 1759785333;
                imwrite := true; release := Ret tt |} in
  let w := exec ts pre build_camera_window in
  let w' := exec ts [Teardown Sample.teardown_ok; UiTick]
              (step ts (Iterate env) w) in
  (pc w = Looping /\ stop_event w = false /\ is_grabbing env = Ret false) /\
  pc w' = Finished /\ err (grabber w') = None /\ loop_state w' = Stopped /\
  info w' = ("Streaming" ++ ellipsis ++ " 1 frames saved")%string.
Proof.
  intros ts pre env w w'.
  pose proof (loop_ends_when_camera_stops ts pre
                [Teardown Sample.teardown_ok; UiTick] env
                eq_refl eq_refl eq_refl) as (_ & _ & He & Hs & _).
  repeat split; try reflexivity; assumption.
Defined.

(** ** Frames offered and frames saved *)

Lemma Subseq_snoc_keep {A : Type} (x : A) (s l : list A) :
  Subseq s l -> Subseq (s ++ [x]) (l ++ [x]).
Proof.
  induction 1 as [|y s l _ IH|y s l _ IH]; cbn.
  - apply Subseq_keep, Subseq_nil.
  - now apply Subseq_keep.
  - now apply Subseq_drop.
Qed.

Lemma Subseq_snoc_drop {A : Type} (x : A) (s l : list A) :
  Subseq s l -> Subseq s (l ++ [x]).
Proof.
  induction 1 as [|y s l _ IH|y s l _ IH]; cbn.
  - apply Subseq_drop, Subseq_nil.
  - now apply Subseq_keep.
  - now apply Subseq_drop.
Qed.

Lemma Subseq_length {A : Type} (s l : list A) :
  Subseq s l -> (List.length s <= List.length l)%nat.
Proof. induction 1; cbn; lia. Qed.

(** A step offers at most one frame, and saves none but the one it has
    just offered. *)
Lemma step_frames (ts : string) (a : Action) (w : World) :
  (saved_frames (log (step ts a w)) = saved_frames (log w) /\
   offered_frames (log (step ts a w)) = offered_frames (log w)) \/
  (exists f,
     offered_frames (log (step ts a w)) = offered_frames (log w) ++ [f] /\
     (saved_frames (log (step ts a w)) = saved_frames (log w) \/
      saved_frames (log (step ts a w)) = saved_frames (log w) ++ [f])).
Proof.
  destruct a;
    try (step_cases; unfold saved_frames; log_simpl;
         first [ left; split; reflexivity
               | right; eexists; split; [reflexivity|]; auto ]).
  rewrite step_UiTick. ui_case w. rewrite Hl. left. auto.
Qed.

Lemma saved_frames_length (l : list Event) :
  List.length (saved_frames l) = List.length (saved_filenames l).
Proof.
  unfold saved_frames, saved_filenames.
  induction l as [|e l IH]; [reflexivity|].
  destruct e; cbn; auto.
Qed.

(** X7. Every frame handed to [cv2.imwrite] has first been offered to the
    preview queue, and the frames are saved in the order in which they were
    offered: along every execution the saved frames are the offered frames
    with some left out. So the saved-frame counter never exceeds the number
    of frames retrieved. *)
Theorem saved_frames_were_offered (ts : string) (acts : list Action) :
  let w := exec ts acts build_camera_window in
  Subseq (saved_frames (log w)) (offered_frames (log w)) /\
  List.length (saved_frames (log w)) = N.to_nat (frame_index (grabber w)) /\
  (N.to_nat (frame_index (grabber w))
   <= List.length (offered_frames (log w)))%nat.
Proof.
  intros w.
  assert (Hsub : Subseq (saved_frames (log w)) (offered_frames (log w))).
  { apply (exec_invariant ts
             (fun x => Subseq (saved_frames (log x)) (offered_frames (log x)))).
    - intros a x Hx.
      destruct (step_frames ts a x) as [[Hs Ho]|(f & Ho & [Hs|Hs])];
        rewrite Hs, Ho; auto using Subseq_snoc_keep, Subseq_snoc_drop.
    - cbn. constructor. }
  assert (Hlen : List.length (saved_frames (log w))
                 = N.to_nat (frame_index (grabber w))).
  { destruct (reachable_persist_inv ts acts) as (Hn & _). fold w in Hn.
    rewrite saved_frames_length, Hn, length_map, indices_length. reflexivity. }
  split; [exact Hsub|]. split; [exact Hlen|].
  rewrite <- Hlen. now apply Subseq_length.
Qed.

(** ** The counter and the clock *)

Lemma TARGET_SAVE_INTERVAL_pos : 0 < TARGET_SAVE_INTERVAL.
Proof. reflexivity. Qed.

Lemma cadence_due_later (now last : Q) :
  cadence_due now last = true -> last < now.
Proof.
  intros H. apply cadence_due_iff in H.
  pose proof TARGET_SAVE_INTERVAL_pos. lra.
Qed.

Lemma step_counters_grow (ts : string) (a : Action) (w : World) :
  (frame_index (grabber w) <= frame_index (grabber (step ts a w)))%N /\
  last_save_time (grabber w) <= last_save_time (grabber (step ts a w)).
Proof.
  destruct (step_persist ts a w)
    as [(Hi & Ht & _)|(now & f & b & Hdue & Hi & Ht & _)].
  - rewrite Hi, Ht. split; [lia | lra].
  - rewrite Hi, Ht. split; [lia|]. apply cadence_due_later in Hdue. lra.
Qed.

(** X8. The saved-frame counter and [last_save_time] never go back, from
    any state and whatever the clock does: a frame is saved only at a
    reading strictly later than the last one saved. While the clock reads
    less than [last_save_time + TARGET_SAVE_INTERVAL] (too soon, or a clock
    that was set back) the persistence path changes nothing at all. *)
Theorem counters_never_go_back (ts : string) (acts : list Action) (w : World) :
  ((frame_index (grabber w) <= frame_index (grabber (exec ts acts w)))%N /\
   last_save_time (grabber w) <= last_save_time (grabber (exec ts acts w))) /\
  (forall env f v,
     time_now env < last_save_time (grabber v) + TARGET_SAVE_INTERVAL ->
     persistence_path ts env f v = (Ret tt, v)) /\
  (forall env f v,
     snd (persistence_path ts env f v) <> v ->
     last_save_time (grabber v) < time_now env /\
     last_save_time (grabber (snd (persistence_path ts env f v)))
     = time_now env).
Proof.
  split; [|split].
  - revert w. induction acts as [|a acts IH]; intros w.
    + cbn. split; [lia | lra].
    + rewrite exec_cons. destruct (step_counters_grow ts a w) as [H1 H2].
      destruct (IH (step ts a w)) as [H3 H4]. split; [lia | lra].
  - intros env f v Hsoon. rewrite persistence_path_spec.
    destruct (cadence_due _ _) eqn:Hdue; [|reflexivity].
    apply cadence_due_iff in Hdue. lra.
  - intros env f v. rewrite persistence_path_spec. cbn [snd].
    destruct (cadence_due _ _) eqn:Hdue; [|congruence].
    intros _. split; [now apply cadence_due_later | reflexivity].
Qed.

(** ** The session directory *)

Lemma field_value (width : nat) (n : N) :
  PyFormat.value (Strftime.field width n) = n.
Proof.
  unfold Strftime.field, PyFormat.zero_pad, PyFormat.value.
  rewrite value_from_zeros. apply str_int_value.
Qed.

Lemma field_length (width : nat) (n : N) :
  (0 < width)%nat -> (n < 10 ^ N.of_nat width)%N ->
  String.length (Strftime.field width n) = width.
Proof.
  intros Hw Hn. unfold Strftime.field, PyFormat.zero_pad.
  rewrite length_zeros_app.
  pose proof (str_int_length_le n width Hw Hn). lia.
Qed.

Lemma field_digits (width : nat) (n : N) :
  PyFormat.all_digits (Strftime.field width n) = true.
Proof.
  unfold Strftime.field, PyFormat.zero_pad.
  rewrite all_digits_zeros. apply str_int_digits.
Qed.

Lemma string_app_inj_length (a a' b b' : string) :
  String.length a = String.length a' ->
  (a ++ b = a' ++ b')%string -> a = a' /\ b = b'.
Proof.
  revert a'. induction a as [|c a IH]; intros [|c' a'] Hlen H;
    cbn in Hlen; try discriminate.
  - auto.
  - cbn in H. injection H as Hc H. injection Hlen as Hlen.
    destruct (IH a' Hlen H) as [Ha Hb]. subst. auto.
Qed.

Lemma in_range_bounds (d : Strftime.datetime) :
  Strftime.in_range d = true ->
  (Strftime.year d < 10 ^ N.of_nat 4 /\ Strftime.month d < 10 ^ N.of_nat 2 /\
   Strftime.day d < 10 ^ N.of_nat 2 /\ Strftime.hour d < 10 ^ N.of_nat 2 /\
   Strftime.minute d < 10 ^ N.of_nat 2 /\ Strftime.second d < 10 ^ N.of_nat 2)%N.
Proof.
  unfold Strftime.in_range. rewrite !andb_true_iff, !N.leb_le.
  change (10 ^ N.of_nat 4)%N with 10000%N.
  change (10 ^ N.of_nat 2)%N with 100%N. lia.
Qed.

(** Cutting a timestamp back into its six fields. *)
Lemma session_timestamp_inj (d1 d2 : Strftime.datetime) :
  Strftime.in_range d1 = true -> Strftime.in_range d2 = true ->
  Strftime.session_timestamp d1 = Strftime.session_timestamp d2 -> d1 = d2.
Proof.
  intros H1 H2 H.
  destruct (in_range_bounds d1 H1) as (Y1 & M1 & D1 & h1 & m1 & s1).
  destruct (in_range_bounds d2 H2) as (Y2 & M2 & D2 & h2 & m2 & s2).
  unfold Strftime.session_timestamp in H.
  repeat match type of H with
  | (Strftime.field ?w ?x ++ _ = Strftime.field ?w ?y ++ _)%string =>
      let Hf := fresh "Hf" in
      apply string_app_inj_length in H;
      [ destruct H as [Hf H];
        apply (f_equal PyFormat.value) in Hf; rewrite !field_value in Hf;
        cbn [append] in H; injection H as H
      | rewrite !field_length by (assumption || lia); reflexivity ]
  end.
  apply (f_equal PyFormat.value) in H. rewrite !field_value in H.
  destruct d1, d2. cbn in *. congruence.
Qed.

Lemma string_app_assoc (a b c : string) :
  ((a ++ b) ++ c = a ++ b ++ c)%string.
Proof. induction a as [|x a IH]; cbn; [reflexivity | now rewrite IH]. Qed.

Lemma is_digit_not_slash (c : ascii) :
  PyFormat.is_digit c = true -> c <> "/"%char.
Proof. intros H Hc. subst c. discriminate H. Qed.

Lemma path_join_relative (a : string) (c : ascii) (rest : string) :
  c <> "/"%char -> String.eqb a "" = false -> ends_with_slash a = false ->
  path_join a (String c rest) = (a ++ "/" ++ String c rest)%string.
Proof.
  intros Hc Ha Hs. unfold path_join. rewrite Ha, Hs. cbn [orb].
  destruct c as [[] [] [] [] [] [] [] []]; try reflexivity.
  contradiction Hc. reflexivity.
Qed.

Lemma all_digits_no_trailing_slash (s : string) :
  PyFormat.all_digits s = true -> ends_with_slash s = false.
Proof.
  induction s as [|c s IH]; [reflexivity|].
  cbn [PyFormat.all_digits ends_with_slash]. intros H.
  apply andb_true_iff in H. destruct H as [Hc Hs].
  destruct s; [|auto].
  apply Ascii.eqb_neq. now apply is_digit_not_slash.
Qed.

Lemma field_nonempty (width : nat) (n : N) :
  (0 < width)%nat -> (n < 10 ^ N.of_nat width)%N ->
  exists c rest, Strftime.field width n = String c rest /\
                 PyFormat.is_digit c = true.
Proof.
  intros Hw Hn. pose proof (field_length width n Hw Hn) as Hlen.
  pose proof (field_digits width n) as Hd.
  destruct (Strftime.field width n) as [|c rest]; [cbn in Hlen; lia|].
  exists c, rest. cbn in Hd. apply andb_true_iff in Hd. tauto.
Qed.

Lemma session_timestamp_length (d : Strftime.datetime) :
  Strftime.in_range d = true ->
  String.length (Strftime.session_timestamp d) = 19%nat.
Proof.
  intros H. destruct (in_range_bounds d H) as (Y & M & D & h & m & s).
  unfold Strftime.session_timestamp.
  repeat (rewrite string_length_app; cbn [String.length]).
  rewrite !field_length by (assumption || lia). reflexivity.
Qed.

Lemma RUN_DIR_relative (d : Strftime.datetime) :
  Strftime.in_range d = true ->
  RUN_DIR (Strftime.session_timestamp d)
  = (BASE_DIR ++ "/" ++ Strftime.session_timestamp d)%string /\
  ends_with_slash (RUN_DIR (Strftime.session_timestamp d)) = false.
Proof.
  intros H. destruct (in_range_bounds d H) as (Y & M & D & h & m & s).
  assert (Hrun : RUN_DIR (Strftime.session_timestamp d)
                 = (BASE_DIR ++ "/" ++ Strftime.session_timestamp d)%string).
  { unfold RUN_DIR, Strftime.session_timestamp.
    destruct (field_nonempty 4 (Strftime.year d) ltac:(lia) Y)
      as (c & rest & Hf & Hc).
    rewrite Hf. cbn [append].
    apply path_join_relative; [now apply is_digit_not_slash | reflexivity..]. }
  split; [exact Hrun|]. rewrite Hrun.
  unfold Strftime.session_timestamp.
  rewrite !ends_with_slash_app;
    try (apply string_app_nonempty; discriminate);
    try discriminate.
  - apply all_digits_no_trailing_slash, field_digits.
  - destruct (field_nonempty 2 (Strftime.second d) ltac:(lia) s)
      as (c & rest & Hf & _). rewrite Hf. discriminate.
Qed.

(** X10. The session paths of lines 15-20, for a start time with a
    four-digit year. The timestamp has 19 characters; the run directory is
    [BASE_DIR/timestamp], the image directory [BASE_DIR/timestamp/images],
    and frame [i] goes to [BASE_DIR/timestamp/images/frame_{i:06d}.jpg].
    The timestamp can be cut back into its fields, so sessions started in
    different seconds get different directories, and two saved frames have
    the same path only if they are the same index of sessions started in
    the same second. *)
Theorem session_paths (d1 d2 : Strftime.datetime) (i j : N) :
  Strftime.in_range d1 = true -> Strftime.in_range d2 = true ->
  let ts1 := Strftime.session_timestamp d1 in
  let ts2 := Strftime.session_timestamp d2 in
  String.length ts1 = 19%nat /\
  RUN_DIR ts1 = (BASE_DIR ++ "/" ++ ts1)%string /\
  IMAGES_DIR ts1 = (BASE_DIR ++ "/" ++ ts1 ++ "/images")%string /\
  frame_filename ts1 i
  = (BASE_DIR ++ "/" ++ ts1 ++ "/images/frame_" ++ PyFormat.format_06d i
     ++ ".jpg")%string /\
  (IMAGES_DIR ts1 = IMAGES_DIR ts2 -> d1 = d2) /\
  (frame_filename ts1 i = frame_filename ts2 j -> d1 = d2 /\ i = j).
Proof.
  intros H1 H2 ts1 ts2.
  assert (Himg : forall d, Strftime.in_range d = true ->
            IMAGES_DIR (Strftime.session_timestamp d)
            = (BASE_DIR ++ "/" ++ Strftime.session_timestamp d
               ++ "/images")%string).
  { intros d Hd. destruct (RUN_DIR_relative d Hd) as [Hrun Hslash].
    unfold IMAGES_DIR.
    rewrite (path_join_relative _ "i" "mages");
      [ | discriminate
        | rewrite Hrun; apply String.eqb_neq, string_app_nonempty; discriminate
        | exact Hslash ].
    rewrite Hrun, !string_app_assoc. reflexivity. }
  assert (Hfile : forall d k, Strftime.in_range d = true ->
            frame_filename (Strftime.session_timestamp d) k
            = (BASE_DIR ++ "/" ++ Strftime.session_timestamp d
               ++ "/images/frame_" ++ PyFormat.format_06d k ++ ".jpg")%string).
  { intros d k Hd. rewrite frame_filename_shape, (Himg d Hd).
    rewrite !string_app_assoc. reflexivity. }
  assert (Hcut : forall r1 r2,
            (ts1 ++ r1 = ts2 ++ r2)%string -> d1 = d2 /\ r1 = r2).
  { intros r1 r2 H. apply string_app_inj_length in H.
    - destruct H as [Hts Hr]. split; [|exact Hr].
      now apply session_timestamp_inj.
    - unfold ts1, ts2. now rewrite !session_timestamp_length. }
  split; [now apply session_timestamp_length|].
  split; [now apply RUN_DIR_relative|].
  split; [now apply Himg|].
  split; [now apply Hfile|].
  split.
  - unfold ts1, ts2. rewrite (Himg d1 H1), (Himg d2 H2). intros H.
    apply string_app_inv_head, string_app_inv_head in H.
    now apply Hcut in H.
  - unfold ts1, ts2. rewrite (Hfile d1 i H1), (Hfile d2 j H2). intros H.
    apply string_app_inv_head, string_app_inv_head in H.
    apply Hcut in H. destruct H as [Hd H]. split; [exact Hd|].
    apply (string_app_inv_head "/images/frame_") in H.
    apply string_app_inv_tail in H.
    rewrite <- (format_06d_value i), <- (format_06d_value j). now rewrite H.
Qed.

(** The session of the sample timestamp and one started a second later. *)
Lemma session_paths_witness :
  let d1 := {| Strftime.year := 2025; Strftime.month := 10; Strftime.day := 6;
               Strftime.hour := 21; Strftime.minute := 15;
               Strftime.second := 32 |} in
  let d2 := {| Strftime.year := 2025; Strftime.month := 10; Strftime.day := 6;
               Strftime.hour := 21; Strftime.minute := 15;
               Strftime.second := 33 |} in
  (Strftime.in_range d1 = true /\ Strftime.in_range d2 = true) /\
  Strftime.session_timestamp d1 = Sample.timestamp /\
  IMAGES_DIR (Strftime.session_timestamp d1)
  = "/media/ben/Extreme SSD/particles_ML/2025-10-06_21-15-32/images" /\
  frame_filename (Strftime.session_timestamp d1) 5
  <> frame_filename (Strftime.session_timestamp d2) 5.
Proof.
  intros d1 d2.
  pose proof (session_paths d1 d2 5 5 eq_refl eq_refl)
    as (_ & _ & Himg & _ & _ & Hinj).
  repeat split. intros H. apply Hinj in H. destruct H as [H _].
  discriminate H.
Defined.

(** * Properties of [gui/motor_controls.py] *)

Lemma motor_send_command_spec (write : outcome unit) (cmd : string)
    (val : option Z) (s : Motor.State) :
  Motor.ser (Motor.send_command write cmd val s) = Motor.ser s /\
  Motor.running (Motor.send_command write cmd val s) = Motor.running s /\
  Motor.writes (Motor.log (Motor.send_command write cmd val s))
  = Motor.writes (Motor.log s)
    ++ (match Motor.ser s with
        | Some _ => [Motor.message cmd val]
        | None => []
        end) /\
  Motor.close_calls (Motor.log (Motor.send_command write cmd val s))
  = Motor.close_calls (Motor.log s).
Proof.
  unfold Motor.send_command, Motor.writes, Motor.close_calls.
  unfold Motor.emit.
  destruct s as [[b|] r st l]; [destruct write|];
    cbn -[Motor.message];
    rewrite ?flat_map_app, ?filter_app, ?length_app; cbn -[Motor.message];
    rewrite ?app_nil_r; repeat split; lia.
Qed.

Lemma motor_run_command_spec (c : Motor.Command) (s : Motor.State) :
  Motor.ser (Motor.run_command c s) = Motor.ser s /\
  Motor.writes (Motor.log (Motor.run_command c s))
  = Motor.writes (Motor.log s)
    ++ (match Motor.ser s with
        | Some _ => [Motor.command_bytes c]
        | None => []
        end) /\
  Motor.close_calls (Motor.log (Motor.run_command c s))
  = Motor.close_calls (Motor.log s).
Proof.
  destruct c as [w|w|w]; cbn [Motor.run_command Motor.command_bytes];
    unfold Motor.stop_motor, Motor.reverse_motor, Motor.find_origin, Motor.emit;
    cbn [Motor.ser Motor.log].
  - destruct (motor_send_command_spec w "X" None s) as (Hs & _ & Hw & Hc).
    unfold Motor.writes, Motor.close_calls in *.
    rewrite flat_map_app, filter_app, length_app, Hs, Hw, Hc. cbn.
    rewrite app_nil_r. repeat split; lia.
  - destruct (motor_send_command_spec w "T" None s) as (Hs & _ & Hw & Hc).
    unfold Motor.writes, Motor.close_calls in *.
    rewrite flat_map_app, filter_app, length_app, Hs, Hw, Hc. cbn.
    rewrite app_nil_r. repeat split; lia.
  - destruct (motor_send_command_spec w "L" None s) as (Hs & _ & Hw & Hc).
    unfold Motor.writes, Motor.close_calls in *.
    rewrite flat_map_app, filter_app, length_app, Hs, Hw, Hc. cbn.
    rewrite app_nil_r. repeat split; lia.
Qed.

(** X11. The motor buttons. Whatever the serial port does, a sequence of
    Stop, Reverse and Find-origin presses never opens or closes the port
    and hands to [ser.write], in order, one message per press: the one
    letter of the command and a newline ([X], [T], [L]). With no port
    ([ser] is [None]) nothing is written at all. And Stop marks the motor
    as not running and shows [Stopped] whether or not its message could be
    sent. *)
Theorem motor_commands (cs : list Motor.Command) (s : Motor.State) :
  let s' := fold_left (fun st c => Motor.run_command c st) cs s in
  Motor.ser s' = Motor.ser s /\
  Motor.writes (Motor.log s')
  = Motor.writes (Motor.log s)
    ++ (match Motor.ser s with
        | Some _ => map Motor.command_bytes cs
        | None => []
        end) /\
  Motor.close_calls (Motor.log s') = Motor.close_calls (Motor.log s) /\
  (forall w, Motor.command_bytes (Motor.Stop w) = String "X" (String (ascii_of_nat 10) "") /\
             Motor.command_bytes (Motor.Reverse w) = String "T" (String (ascii_of_nat 10) "") /\
             Motor.command_bytes (Motor.FindOrigin w) = String "L" (String (ascii_of_nat 10) "")) /\
  (forall w st, Motor.running (Motor.stop_motor w st) = false /\
                Motor.status_label (Motor.stop_motor w st) = "Stopped").
Proof.
  intros s'. subst s'.
  assert (H : Motor.ser (fold_left (fun st c => Motor.run_command c st) cs s)
              = Motor.ser s /\
              Motor.writes (Motor.log (fold_left (fun st c => Motor.run_command c st) cs s))
              = Motor.writes (Motor.log s)
                ++ (match Motor.ser s with
                    | Some _ => map Motor.command_bytes cs
                    | None => []
                    end) /\
              Motor.close_calls (Motor.log (fold_left (fun st c => Motor.run_command c st) cs s))
              = Motor.close_calls (Motor.log s)).
  { revert s. induction cs as [|c cs IH]; intros s; cbn [fold_left map].
    - destruct (Motor.ser s); rewrite app_nil_r; auto.
    - destruct (IH (Motor.run_command c s)) as (Hs & Hw & Hc).
      destruct (motor_run_command_spec c s) as (Hs1 & Hw1 & Hc1).
      rewrite Hs, Hw, Hc, Hs1, Hw1, Hc1.
      destruct (Motor.ser s); rewrite <- ?app_assoc; auto. }
  destruct H as (Hs & Hw & Hc).
  split; [exact Hs|]. split; [exact Hw|]. split; [exact Hc|].
  split; [intros w; repeat split|].
  intros w st. split; reflexivity.
Qed.

Lemma motor_writes_app (a b : list Motor.Event) :
  Motor.writes (a ++ b) = Motor.writes a ++ Motor.writes b.
Proof. apply flat_map_app. Qed.

Lemma motor_close_calls_app (a b : list Motor.Event) :
  Motor.close_calls (a ++ b)
  = (Motor.close_calls a + Motor.close_calls b)%nat.
Proof. unfold Motor.close_calls. now rewrite filter_app, length_app. Qed.

Lemma motor_stop_appends (write : outcome unit) (s : Motor.State) :
  exists evs, Motor.log (Motor.stop_motor write s) = Motor.log s ++ evs.
Proof.
  unfold Motor.stop_motor, Motor.send_command, Motor.emit.
  destruct (Motor.ser s); [destruct write|];
    cbn [Motor.log]; rewrite <- app_assoc; eexists; reflexivity.
Qed.

Lemma motor_close_serial_spec (close : outcome unit) (s : Motor.State) :
  exists evs,
    Motor.log (Motor.close_serial close s) = Motor.log s ++ evs /\
    Motor.writes (Motor.log (Motor.close_serial close s))
    = Motor.writes (Motor.log s) /\
    Motor.close_calls (Motor.log (Motor.close_serial close s))
    = (Motor.close_calls (Motor.log s)
       + match Motor.ser s with Some true => 1 | _ => 0 end)%nat /\
    Motor.ser (Motor.close_serial close s)
    = (match Motor.ser s, close with
       | Some true, Ret _ => Some false
       | x, _ => x
       end) /\
    Motor.running (Motor.close_serial close s) = Motor.running s /\
    Motor.status_label (Motor.close_serial close s) = Motor.status_label s.
Proof.
  unfold Motor.close_serial, Motor.emit, Motor.writes, Motor.close_calls.
  destruct s as [[[|]|] r st l]; cbn [Motor.ser].
  - destruct close; cbn [Motor.ser Motor.log Motor.running Motor.status_label];
      eexists; (split; [reflexivity|]);
      rewrite flat_map_app, filter_app, length_app; cbn [flat_map filter List.length app];
      rewrite app_nil_r; repeat split; lia.
  - exists []. cbn [Motor.ser Motor.log Motor.running Motor.status_label].
    rewrite app_nil_r. destruct close; repeat split; lia.
  - exists []. cbn [Motor.ser Motor.log Motor.running Motor.status_label].
    rewrite app_nil_r. destruct close; repeat split; lia.
Qed.

(** X12. Closing the motor window. Whatever state the port is in and
    whatever its calls do, [on_close] first tries to stop the motor (one
    [X] message if there is a port, none otherwise), then closes the port
    exactly when there is one and it is open (also when the stop message
    could not be sent), and always ends by destroying the window and
    exiting with code 0; an exception of [write] or [close] is reported and
    goes no further. The motor is marked as not running, and the port is
    marked closed when the close returned. *)
Theorem motor_on_close (write close : outcome unit) (s : Motor.State) :
  let s' := Motor.on_close write close s in
  (exists mid,
     Motor.log s'
     = Motor.log s ++ Motor.Print "[EXIT] Shutting down gracefully..." :: mid
       ++ [Motor.Destroy; Motor.Exit 0]) /\
  Motor.writes (Motor.log s')
  = Motor.writes (Motor.log s)
    ++ (match Motor.ser s with
        | Some _ => [String "X" (String (ascii_of_nat 10) "")]
        | None => []
        end) /\
  Motor.close_calls (Motor.log s')
  = (Motor.close_calls (Motor.log s)
     + match Motor.ser s with Some true => 1 | _ => 0 end)%nat /\
  Motor.ser s'
  = (match Motor.ser s, close with
     | Some true, Ret _ => Some false
     | x, _ => x
     end) /\
  Motor.running s' = false /\ Motor.status_label s' = "Stopped".
Proof.
  intros s'. subst s'. unfold Motor.on_close.
  set (s1 := Motor.emit [Motor.Print "[EXIT] Shutting down gracefully..."] s).
  set (s2 := Motor.stop_motor write s1).
  destruct (motor_run_command_spec (Motor.Stop write) s1) as (Hs2 & Hw2 & Hc2).
  cbn [Motor.run_command] in Hs2, Hw2, Hc2. fold s2 in Hs2, Hw2, Hc2.
  destruct (motor_stop_appends write s1) as (e2 & He2). fold s2 in He2.
  destruct (motor_close_serial_spec close s2)
    as (e3 & He3 & Hw3 & Hc3 & Hser3 & Hr3 & Hst3).
  assert (Hs1 : Motor.ser s1 = Motor.ser s) by reflexivity.
  assert (Hl1 : Motor.log s1
                = Motor.log s ++ [Motor.Print "[EXIT] Shutting down gracefully..."])
    by reflexivity.
  fold s2. set (s3 := Motor.close_serial close s2) in *.
  assert (Hlog : Motor.log (Motor.emit [Motor.Destroy; Motor.Exit 0] s3)
                 = Motor.log s3 ++ [Motor.Destroy; Motor.Exit 0]) by reflexivity.
  split; [|split; [|split; [|split; [|split]]]].
  - exists (e2 ++ e3). rewrite Hlog, He3, He2, Hl1, <- !app_assoc. reflexivity.
  - rewrite Hlog, motor_writes_app, Hw3, Hw2, Hl1, motor_writes_app, Hs1.
    cbn [Motor.writes flat_map app]. rewrite !app_nil_r. reflexivity.
  - rewrite Hlog, motor_close_calls_app, Hc3, Hc2, Hl1, motor_close_calls_app.
    rewrite Hs2, Hs1. cbn [Motor.close_calls filter List.length]. lia.
  - change (Motor.ser (Motor.emit [Motor.Destroy; Motor.Exit 0] s3))
      with (Motor.ser s3).
    rewrite Hser3, Hs2, Hs1. reflexivity.
  - change (Motor.running (Motor.emit [Motor.Destroy; Motor.Exit 0] s3))
      with (Motor.running s3).
    rewrite Hr3. reflexivity.
  - change (Motor.status_label (Motor.emit [Motor.Destroy; Motor.Exit 0] s3))
      with (Motor.status_label s3).
    rewrite Hst3. reflexivity.
Qed.

(** C5, as the spec words it, fails in its first part: with no camera
    connected no exception is raised. The code before the loop comes to its
    end by the [return] of line 45, and [err] is not the message of an
    exception caught at lines 82-83 but the text assigned at line 44, the
    only thing logged being the device enumeration, which returned. *)
Lemma no_device_nothing_raised :
  let r := setup Sample.setup_no_device build_camera_window in
  fst r = Ret Returned /\
  (forall msg, fst r <> Raise msg) /\
  log (snd r) = [Called EnumerateDevices true] /\
  err (grabber (snd r)) = Some "No Basler camera found".
Proof.
  cbv zeta. split; [reflexivity|]. split; [|split; reflexivity].
  intros msg H. discriminate H.
Qed.

(** ** The daemon thread at interpreter exit *)

Lemma proc_exec_exited (ts : string) (pas : list ProcAction) (p : Process) :
  exited p = true -> proc_exec ts pas p = p.
Proof.
  intros He. induction pas as [|pa pas IH]; [reflexivity|].
  cbn [proc_exec fold_left]. unfold proc_step at 2. rewrite He. exact IH.
Qed.

Lemma proc_exec_acts (ts : string) (acts : list Action) (w : World) :
  proc_exec ts (map Act acts) (started w) = started (exec ts acts w).
Proof.
  revert w. induction acts as [|a acts IH]; intros w; [reflexivity|].
  cbn [map proc_exec fold_left]. unfold proc_step at 2. cbn [exited started].
  apply IH.
Qed.

Lemma proc_exec_exit (ts : string) (acts : list Action)
    (pas : list ProcAction) (w : World) :
  proc_exec ts (map Act acts ++ InterpreterExit :: pas) (started w)
  = {| world := exec ts acts w; exited := true |}.
Proof.
  revert w. induction acts as [|a acts IH]; intros w.
  - cbn [map app]. change (proc_exec ts (InterpreterExit :: pas) (started w))
      with (proc_exec ts pas {| world := w; exited := true |}).
    now apply proc_exec_exited.
  - cbn [map app]. change (proc_exec ts (Act a :: map Act acts ++ InterpreterExit :: pas) (started w))
      with (proc_exec ts (map Act acts ++ InterpreterExit :: pas)
              (started (step ts a w))).
    apply IH.
Qed.

(** C8, as the code has it. Cancellation by the window is cooperative: when
    the thread comes to the [while] with the flag set it makes no call at
    all (the test short-circuits before [IsGrabbing], so before any
    retrieval) and leaves the loop in the state [Stopped]; the [finally]
    block then runs and [run] returns. From any state with the flag set no
    sequence of steps performs a further retrieval, the flag is never
    cleared, and [on_close] only sets the flag and destroys the window. As
    long as the interpreter lives, the two threads run as in [exec]. But
    the thread is a daemon: once the interpreter has exited the thread
    takes no further step at all, whatever state it was in, so a thread
    stopped in this way never runs its [finally] block. *)
Theorem cancellation_until_interpreter_exit (ts : string) (pre : list Action)
    (env : IterEnv) (te : TeardownEnv) :
  let w := exec ts pre build_camera_window in
  pc w = Looping -> stop_event w = true ->
  let w1 := step ts (Iterate env) w in
  let w2 := step ts (Teardown te) w1 in
  (w1 = with_pc Finalizing w /\ loop_state w1 = Stopped) /\
  (pc w2 = Finished /\ loop_state w2 = Stopped /\
   log w2 = log w ++ teardown_calls (cam (grabber w)) te ++ [Print stopped_line]) /\
  (forall v acts, stop_event v = true ->
     stop_event (exec ts acts v) = true /\
     calls RetrieveResult (log (exec ts acts v)) = calls RetrieveResult (log v)) /\
  (forall v, stop_event (on_close v) = true /\ pc (on_close v) = pc v /\
             grabber (on_close v) = grabber v /\ log (on_close v) = log v) /\
  (forall v acts,
     proc_exec ts (map Act acts) (started v) = started (exec ts acts v)) /\
  (forall v acts pas,
     let p := proc_exec ts (map Act acts ++ InterpreterExit :: pas) (started v) in
     exited p = true /\ world p = exec ts acts v).
Proof.
  intros w Hpc Hs w1 w2.
  destruct (cooperative_cancellation ts pre env te Hpc Hs)
    as (H1 & H2 & H3 & H4).
  split; [exact H1|]. split; [exact H2|]. split; [exact H3|].
  split; [exact H4|]. split; [intros v acts; apply proc_exec_acts|].
  intros v acts pas p. subst p. rewrite proc_exec_exit. split; reflexivity.
Qed.

(** One frame is saved, the window is closed, the thread comes back to the
    [while] and leaves through its [finally] block. *)
Lemma cancellation_until_interpreter_exit_witness :
  let ts := Sample.timestamp in
  let pre := [Setup Sample.setup_ok; Iterate (Sample.frame_at 1759785332 true);
              OnClose] in
  let w := exec ts pre build_camera_window in
  let w2 := step ts (Teardown Sample.teardown_ok)
              (step ts (Iterate (Sample.frame_at 1759785333 true)) w) in
  (pc w = Looping /\ stop_event w = true) /\
  pc w2 = Finished /\ loop_state w2 = Stopped /\
  calls RetrieveResult (log w2) = 1%nat.
Proof.
  intros ts pre w w2.
  pose proof (cancellation_until_interpreter_exit ts pre
                (Sample.frame_at 1759785333 true) Sample.teardown_ok
                eq_refl eq_refl) as (_ & (Hp & Hst & _) & _).
  repeat split; try reflexivity; assumption.
Defined.

(** C8, as the spec words it, fails in its last part. A camera is opened
    and a frame saved; then the interpreter exits (the flag was never set:
    the [on_close] of the motor window calls [sys.exit(0)] and knows nothing
    of [stop_event]). The daemon thread is stopped in the middle of its
    loop: whatever steps would have followed, it is still at the [while],
    its [finally] block has not run and the camera is still open. *)
Lemma daemon_thread_killed_at_exit :
  let ts := Sample.timestamp in
  let p := proc_exec ts
             [Act (Setup Sample.setup_ok);
              Act (Iterate (Sample.frame_at 1759785332 true));
              InterpreterExit;
              Act (Iterate (Sample.frame_at 1759785333 true));
              Act (Teardown Sample.teardown_ok)]
             (started build_camera_window) in
  exited p = true /\ pc (world p) = Looping /\
  stop_event (world p) = false /\
  teardowns (log (world p)) = 0%nat /\
  calls StopGrabbing (log (world p)) = 0%nat /\
  device_open_after (log (world p)) = true /\
  In (Motor.Exit 0)
     (Motor.log (Motor.on_close (Ret tt) (Ret tt) (Motor.init (Ret tt)))).
Proof.
  cbv zeta. repeat split. cbn. auto 10.
Qed.

(** ** The camera handle after the [finally] block *)

(** C2. Where the code falls short of releasing the handle on every exit
    path: [StopGrabbing] and [Close] share one [try] (lines 86-91), so when
    [StopGrabbing] raises, [Close] is skipped. The exception is swallowed
    and [run] returns, with [err] as it was, but no [Close] has been
    attempted and the handle is held exactly as before the [finally]
    block. *)
Theorem close_skipped_when_stop_grabbing_raises (ts : string) (w : World)
    (te : TeardownEnv) (c msg : string) :
  pc w = Finalizing -> cam (grabber w) = Some c ->
  stop_grabbing te = Raise msg ->
  let w' := step ts (Teardown te) w in
  pc w' = Finished /\
  log w' = log w ++ [Called StopGrabbing false; Print stopped_line] /\
  calls Close (log w') = calls Close (log w) /\
  device_open_after (log w') = device_open_after (log w) /\
  err (grabber w') = err (grabber w).
Proof.
  intros Hpc Hc Hs w'. subst w'. rewrite (step_teardown ts te w Hpc).
  unfold teardown_calls. rewrite Hc, Hs. cbn [returned app].
  cbn [pc log grabber with_pc with_log].
  split; [reflexivity|]. split; [reflexivity|].
  split; [unfold calls; rewrite filter_app, length_app; cbn; lia|].
  split; [unfold device_open_after; rewrite fold_left_app; reflexivity|].
  reflexivity.
Qed.

(** The window is closed while the camera is grabbing, and [StopGrabbing]
    raises in the [finally] block: [run] returns with the camera open. *)
Lemma close_skipped_when_stop_grabbing_raises_witness :
  let ts := Sample.timestamp in
  let w := exec ts [Setup Sample.setup_ok; OnClose;
                    Iterate (Sample.frame_at 1759785332 true)]
             build_camera_window in
  let w' := step ts (Teardown Sample.teardown_stop_raises) w in
  (pc w = Finalizing /\
   cam (grabber w) = Some "Basler acA1920-155um (40012345)" /\
   stop_grabbing Sample.teardown_stop_raises = Raise "Device has been removed") /\
  pc w' = Finished /\ calls Close (log w') = 0%nat /\
  device_open_after (log w') = true /\ err (grabber w') = None.
Proof.
  intros ts w w'.
  pose proof (close_skipped_when_stop_grabbing_raises ts w
                Sample.teardown_stop_raises
                "Basler acA1920-155um (40012345)" "Device has been removed"
                eq_refl eq_refl eq_refl) as (Hp & _ & Hc & Hd & He).
  repeat split; try reflexivity; assumption.
Defined.
